(** * PostgresCrudService: criteria compiler, query assembly and soft delete

    A shallow embedding of [PostgresCrudService] (okanjo-app-pg): the
    constructor, [_buildCriteria], [find], [count], [retrieve],
    [_applyUpdates], [update], [bulkUpdate], [delete], [bulkDelete],
    [deletePermanently] and [bulkDeletePermanently].

    Conventions of the embedding.
    - A JavaScript value is a [value]; an object literal is an association
      list in insertion order ([Object.keys] order for the identifier-like
      column names the service is used with).
    - A method that mutates an argument returns the argument's new contents
      next to its result.
    - A statement is kept as a small syntax tree, one constructor per template
      literal of the source; [render] prints the SQL text the source builds,
      and [exec] gives the tree its meaning on a table. *)

From Stdlib Require Import String Ascii List ZArith Bool Lia PeanoNat.
From Stdlib Require Import Numbers.DecimalString.
Import ListNotations.

Set Warnings "-register-all".

Local Open Scope string_scope.
Local Open Scope list_scope.

(** ** JavaScript values *)

(** Numbers are the integers the service meets (ids, counts, offsets); a
    [Date] is its time value, a [Buffer] its bytes. *)
Inductive value : Type :=
| VUndefined
| VNull
| VBool (b : bool)
| VNum (n : Z)
| VStr (s : string)
| VDate (t : Z)
| VBuffer (bytes : list Z)
| VArr (items : list value)
| VObj (entries : list (string * value)).

Definition object := list (string * value).

(** [if (v)] *)
Definition truthy (v : value) : bool :=
  match v with
  | VUndefined | VNull => false
  | VBool b => b
  | VNum n => negb (n =? 0)%Z
  | VStr s => negb (s =? "")
  | VDate _ | VBuffer _ | VArr _ | VObj _ => true
  end.

(** [typeof v !== "undefined"] *)
Definition defined (v : value) : bool :=
  match v with VUndefined => false | _ => true end.

(** [o[k]] *)
Fixpoint get (k : string) (o : object) : value :=
  match o with
  | [] => VUndefined
  | (k', v) :: o' => if k' =? k then v else get k o'
  end.

(** [o[k] = v]: an existing key keeps its place, a new key goes last. *)
Fixpoint set (k : string) (v : value) (o : object) : object :=
  match o with
  | [] => [(k, v)]
  | (k', v') :: o' => if k' =? k then (k, v) :: o' else (k', v') :: set k v o'
  end.

(** [delete o[k]] *)
Fixpoint del (k : string) (o : object) : object :=
  match o with
  | [] => []
  | (k', v') :: o' => if k' =? k then del k o' else (k', v') :: del k o'
  end.

(** [Object.keys(o)] *)
Definition keys (o : object) : list string := map fst o.

(** ** Statements

    One [clause] per fragment pushed on [where]; a placeholder [$n] is the
    number [n]. *)

Inductive cmp : Type := Eq | Ne | Gt | Ge | Lt | Le.

Inductive clause : Type :=
| CIn (field : string) (negated : bool) (ps : list nat)
| CCmp (field : string) (op : cmp) (p : nat)
| CLower (field : string) (negated : bool) (p : nat)
| CStatus (field : string) (p q : nat).

Inductive projection : Type :=
| PStar
| PCountStar
| PColumns (cols : list string).

Inductive limit : Type :=
| LimitNone
| LimitLiteral (n : nat)
| LimitParam (p : nat).

Inductive statement : Type :=
| Select (proj : projection) (schema table : string) (where_ : list clause)
         (sort : option (list (string * bool))) (offset : option nat)
         (lim : limit)
| Update (schema table : string) (sets : list (string * nat))
         (where_ : list clause) (returning : bool)
| Delete (schema table : string) (where_ : list clause) (returning : bool)
| Insert (schema table : string) (cols : list string) (ps : list nat).

(** What is handed to [service.query(sql, args, { client })]. *)
Record query : Type := mkQuery {
  q_stmt : statement;
  q_args : list value;
  q_client : option nat
}.

(** *** The SQL text *)

Local Infix "+++" := String.append (right associativity, at level 60).

Definition dq : string := String (ascii_of_nat 34) EmptyString.

Definition quote (field : string) : string := dq +++ field +++ dq.

Definition decimal (n : nat) : string :=
  NilEmpty.string_of_uint (Nat.to_uint n).

Definition dollar (p : nat) : string := "$" +++ decimal p.

(** [xs.join(sep)] *)
Fixpoint join (sep : string) (xs : list string) : string :=
  match xs with
  | [] => ""
  | [x] => x
  | x :: xs' => x +++ sep +++ join sep xs'
  end.

Definition cmp_text (op : cmp) : string :=
  match op with
  | Eq => "=" | Ne => "!=" | Gt => ">" | Ge => ">=" | Lt => "<" | Le => "<="
  end.

Definition render_clause (c : clause) : string :=
  match c with
  | CIn f neg ps =>
      quote f +++ " " +++ (if neg then "NOT " else "") +++ "IN ("
        +++ join ", " (map dollar ps) +++ ")"
  | CCmp f op p => quote f +++ " " +++ cmp_text op +++ " " +++ dollar p
  | CLower f neg p =>
      "LOWER(" +++ quote f +++ ") " +++ (if neg then "!=" else "=")
        +++ " LOWER(" +++ dollar p +++ ")"
  | CStatus f p q =>
      quote f +++ " = " +++ dollar p +++ " AND " +++ quote f +++ " != "
        +++ dollar q
  end.

Definition render_where (where_ : list clause) : string :=
  match where_ with
  | [] => ""
  | _ => " WHERE " +++ join " AND " (map render_clause where_)
  end.

Definition render_table (schema table : string) : string :=
  quote schema +++ "." +++ quote table.

Definition render_projection (proj : projection) : string :=
  match proj with
  | PStar => "*"
  | PCountStar => "COUNT(*) AS count"
  | PColumns cols => join ", " (map quote cols)
  end.

Definition render_sort (sort : option (list (string * bool))) : string :=
  match sort with
  | None => ""
  | Some fs =>
      " ORDER BY "
        +++ join "," (map (fun fa : string * bool =>
                            quote (fst fa) +++ " "
                              +++ (if snd fa then "ASC" else "DESC")) fs)
  end.

Definition render_set (s : string * nat) : string :=
  quote (fst s) +++ " = " +++ dollar (snd s).

Definition render (st : statement) : string :=
  match st with
  | Select proj schema table where_ sort offset lim =>
      "SELECT " +++ render_projection proj +++ " FROM "
        +++ render_table schema table +++ render_where where_
        +++ render_sort sort
        +++ match offset with Some p => " OFFSET " +++ dollar p | None => "" end
        +++ match lim with
           | LimitNone => ""
           | LimitLiteral n => " LIMIT " +++ decimal n
           | LimitParam p => " LIMIT " +++ dollar p
           end
  | Update schema table sets where_ returning =>
      "UPDATE " +++ render_table schema table +++ " SET "
        +++ join ", " (map render_set sets) +++ render_where where_
        +++ (if returning then " RETURNING *" else "")
  | Delete schema table where_ returning =>
      "DELETE FROM " +++ render_table schema table +++ render_where where_
        +++ (if returning then " RETURNING *" else "")
  | Insert schema table cols ps =>
      "INSERT INTO " +++ render_table schema table +++ " ("
        +++ join ", " (map quote cols) +++ ") VALUES ("
        +++ join ", " (map dollar ps) +++ ") RETURNING *"
  end.

(** *** Placeholders, in the order the text shows them *)

Definition clause_placeholders (c : clause) : list nat :=
  match c with
  | CIn _ _ ps => ps
  | CCmp _ _ p => [p]
  | CLower _ _ p => [p]
  | CStatus _ p q => [p; q]
  end.

Definition where_placeholders (where_ : list clause) : list nat :=
  flat_map clause_placeholders where_.

Definition placeholders (st : statement) : list nat :=
  match st with
  | Select _ _ _ where_ _ offset lim =>
      where_placeholders where_
        ++ match offset with Some p => [p] | None => [] end
        ++ match lim with LimitParam p => [p] | _ => [] end
  | Update _ _ sets where_ _ => map snd sets ++ where_placeholders where_
  | Delete _ _ where_ _ => where_placeholders where_
  | Insert _ _ _ ps => ps
  end.

(** ** The service and its constructor *)

Record service : Type := mkService {
  schema : string;
  table : string;
  idField : string;
  statusField : string;
  updatedField : option string;
  _createRetryCount : Z;
  _modifiableKeys : list string;
  _deletedStatus : string;
  _concealDeadResources : bool
}.

(** The constructor's [options]; [None] is a key left out (or [null]). *)
Record options : Type := mkOptions {
  o_service : bool;
  o_schema : option string;
  o_table : option string;
  o_idField : option string;
  o_statusField : option string;
  o_updatedField : option string;
  o_createRetryCount : option Z;
  o_modifiableKeys : option (list string);
  o_deletedStatus : option string;
  o_concealDeadResources : option bool
}.

Inductive result (A : Type) : Type :=
| Ok (a : A)
| Throw (message : string).
Arguments Ok {A} a.
Arguments Throw {A} message.

(** [if (s)] for a string-or-null setting *)
Definition given (s : option string) : bool :=
  match s with
  | Some x => negb (x =? "")
  | None => false
  end.

(** [s || d] *)
Definition or_default (s : option string) (d : string) : string :=
  match s with
  | Some x => if x =? "" then d else x
  | None => d
  end.

Definition construct (opts : option options) : result service :=
  match opts with
  | None => Throw "PostgresCrudService: `options` are required."
  | Some o =>
      if negb (o_service o) then
        Throw "PostgresCrudService: `service` must be defined on initialization"
      else if negb (given (o_schema o)) then
        Throw "PostgresCrudService: `schema` must be defined on initialization"
      else if negb (given (o_table o)) then
        Throw "PostgresCrudService: `table` must be defined on initialization"
      else
        Ok {| schema := or_default (o_schema o) "";
              table := or_default (o_table o) "";
              idField := or_default (o_idField o) "id";
              statusField := or_default (o_statusField o) "status";
              updatedField := Some (or_default (o_updatedField o) "updated");
              _createRetryCount :=
                match o_createRetryCount o with
                | Some n => if (n =? 0)%Z then 3%Z else n
                | None => 3%Z
                end;
              _modifiableKeys :=
                match o_modifiableKeys o with Some ks => ks | None => [] end;
              _deletedStatus := or_default (o_deletedStatus o) "dead";
              _concealDeadResources :=
                match o_concealDeadResources o with
                | Some b => b
                | None => true
                end |}
  end.

(** ** _buildCriteria *)

(** The two output arrays, and the diagnostics sent to [app.report]. *)
Record builder : Type := mkBuilder {
  b_where : list clause;
  b_args : list value;
  b_reports : list (string * value)
}.

Definition empty_builder : builder := mkBuilder [] [] [].

(** [$${args.length+1}] *)
Definition next (b : builder) : nat := length (b_args b) + 1.

(** [where.push(c); args.push(...vs)] *)
Definition push (c : clause) (vs : list value) (b : builder) : builder :=
  mkBuilder (b_where b ++ [c]) (b_args b ++ vs) (b_reports b).

(** [if (value.$op) { where.push(...$${args.length+1}); args.push(value.$op) }] *)
Definition operator (key : string) (mk : nat -> clause) (entries : object)
    (b : builder) : builder :=
  if truthy (get key entries) then push (mk (next b)) [get key entries] b
  else b.

(** The body of the [forEach] callback for one [field].  The callback is
    [async], but its only [await] comes after all its pushes, so the pushes
    of the fields happen in key order.  The [$ne] case calls
    [_buildCriteria({ [field]: value.$ne }, where, args, false)], which is
    this body again on [value.$ne]; the inner [fix] reads [value.$ne]. *)
Fixpoint buildField (field : string) (v : value) (equality : bool)
    (b : builder) {struct v} : builder :=
  match v with
  | VArr items =>
      push (CIn field (negb equality) (seq (next b) (length items))) items b
  | VObj entries =>
      let b1 :=
        (fix ne (es : list (string * value)) : builder :=
           match es with
           | [] => b
           | (k, x) :: es' =>
               if k =? "$ne"
               then (if truthy x then buildField field x false b else b)
               else ne es'
           end) entries in
      let b2 := operator "$gt" (CCmp field Gt) entries b1 in
      let b3 := operator "$gte" (CCmp field Ge) entries b2 in
      let b4 := operator "$lt" (CCmp field Lt) entries b3 in
      let b5 := operator "$lte" (CCmp field Le) entries b4 in
      let b6 := operator "$eqi" (CLower field false) entries b5 in
      let b7 := operator "$nei" (CLower field true) entries b6 in
      if Nat.eqb (length (b_where b)) (length (b_where b7))
      then mkBuilder (b_where b7) (b_args b7) (b_reports b7 ++ [(field, v)])
      else b7
  | _ => push (CCmp field (if equality then Eq else Ne) (next b)) [v] b
  end.

Definition _buildCriteria (criteria : object) (b : builder) (equality : bool)
    : builder :=
  fold_left (fun acc fv => buildField (fst fv) (snd fv) equality acc)
    criteria b.

(** ** Calls *)

(** Per-call options; [None] is a key that is absent (or [undefined]). *)
Record query_options : Type := mkQueryOptions {
  client : option nat;
  skip : option Z;
  take : option Z;
  fields : option object;
  sort : option (list (string * Z));
  conceal : option bool;
  mode : option string
}.

Definition no_options : query_options :=
  mkQueryOptions None None None None None None None.

Definition _QUERY_MODE_COUNT : string := "COUNT".

(** What a method does: reject after [app.report], resolve without a query,
    or hand one query to [service.query]. *)
Inductive call : Type :=
| Rejected (report : string) (error : string)
| Resolved (v : value)
| Issued (q : query).

Definition queries (c : call) : list query :=
  match c with
  | Issued q => [q]
  | _ => []
  end.

(** The block shared word for word by [find] and [bulkUpdate]:
    [if (criteria[this.statusField]) { ... } else { ... }]. *)
Definition concealStatus (svc : service) (criteria : object) (b : builder)
    : object * builder :=
  if truthy (get (statusField svc) criteria) then
    (del (statusField svc) criteria,
     mkBuilder
       (b_where b ++ [CStatus (statusField svc) (length (b_args b) + 1)
                              (length (b_args b) + 2)])
       (b_args b ++ [get (statusField svc) criteria; VStr (_deletedStatus svc)])
       (b_reports b))
  else
    (set (statusField svc) (VObj [("$ne", VStr (_deletedStatus svc))]) criteria,
     b).

(** ** find *)

(** [find]'s query, with what the call leaves in the caller's [criteria]
    ([None] when the caller passed none) and [options]. *)
Record found : Type := mkFound {
  f_criteria : option object;
  f_options : query_options;
  f_reports : list (string * value);
  f_query : query
}.

(** [fields.id = 1] when absent, then [Object.keys(fields).filter(...)]. *)
Definition allowedFields (fields_ : object) : list string :=
  let fields1 :=
    if defined (get "id" fields_) then fields_ else set "id" (VNum 1) fields_ in
  filter (fun field => truthy (get field fields1)) (keys fields1).

Definition find (svc : service) (criteria : option object)
    (opts : query_options) : found :=
  (* Strip options out *)
  let skip_ := skip opts in
  let limit_ := take opts in
  let sort_ := sort opts in
  let conceal_ := match conceal opts with Some c => c | None => true end in
  let mode_ := mode opts in
  let fields_ :=
    match mode opts with Some _ => None | None => fields opts end in
  let opts' := mkQueryOptions (client opts) None None None None None None in
  (* Actively prevent dead resources from returning *)
  let '(caller, criteria1, b0) :=
    if _concealDeadResources svc && conceal_ then
      match criteria with
      | Some c =>
          let (c', b) := concealStatus svc c empty_builder in
          (Some c', c', b)
      | None =>
          (None,
           [(statusField svc, VObj [("$ne", VStr (_deletedStatus svc))])],
           empty_builder)
      end
    else
      (criteria, match criteria with Some c => c | None => [] end,
       empty_builder) in
  (* Build the query where args *)
  let b := _buildCriteria criteria1 b0 true in
  (* Build the fields clause *)
  let proj :=
    match fields_ with
    | Some fs => PColumns (allowedFields fs)
    | None =>
        match mode_ with
        | Some m => if m =? _QUERY_MODE_COUNT then PCountStar else PStar
        | None => PStar
        end
    end in
  (* Attach order by clause *)
  let order :=
    match sort_ with
    | Some s => Some (map (fun fn : string * Z => (fst fn, (0 <? snd fn)%Z)) s)
    | None => None
    end in
  (* Attach limit clause *)
  let '(offset, args1) :=
    match skip_ with
    | Some n => (Some (length (b_args b) + 1), b_args b ++ [VNum n])
    | None => (None, b_args b)
    end in
  let '(lim, args2) :=
    match limit_ with
    | Some n => (LimitParam (length args1 + 1), args1 ++ [VNum n])
    | None => (LimitNone, args1)
    end in
  mkFound caller opts' (b_reports b)
    (mkQuery (Select proj (schema svc) (table svc) (b_where b) order offset lim)
             args2 (client opts)).

(** ** count *)

Definition count (svc : service) (criteria : option object)
    (opts : query_options) : found :=
  find svc criteria
    (mkQueryOptions (client opts) None None None None (conceal opts)
       (Some _QUERY_MODE_COUNT)).

(** ** retrieve *)

Definition retrieve (svc : service) (id : value) (opts : query_options)
    : call :=
  match id with
  | VUndefined | VNull => Resolved VNull
  | _ =>
      let where0 := [CCmp (idField svc) Eq 1] in
      let args0 := [id] in
      let '(where1, args1) :=
        if _concealDeadResources svc
        then (where0 ++ [CCmp (statusField svc) Ne 2],
              args0 ++ [VStr (_deletedStatus svc)])
        else (where0, args0) in
      Issued (mkQuery
                (Select PStar (schema svc) (table svc) where1 None None
                        (LimitLiteral 1))
                args1 (client opts))
  end.

(** ** create *)

Definition create (svc : service) (data : object) (opts : query_options)
    : call :=
  Issued (mkQuery
            (Insert (schema svc) (table svc) (keys data)
                    (seq 1 (length (keys data))))
            (map snd data) (client opts)).

(** ** update *)

(** [data && typeof data === "object"]: [None] is no patch. *)
Definition _applyUpdates (svc : service) (doc : object) (data : option object)
    : object :=
  match data with
  | Some d =>
      fold_left
        (fun acc property =>
           if truthy (get property d) then set property (get property d) acc
           else acc)
        (_modifiableKeys svc) doc
  | None => doc
  end.

(** [if (this.updatedField) o[this.updatedField] = new Date()] *)
Definition stamp (svc : service) (now : Z) (o : object) : object :=
  match updatedField svc with
  | Some f => if f =? "" then o else set f (VDate now) o
  | None => o
  end.

(** [Object.keys(setData).map(field => { args.push(setData[field]); ... })] *)
Definition setsOf (setData : object) : list (string * nat) :=
  combine (keys setData) (seq 1 (length setData)).

Definition setArgs (setData : object) : list value :=
  map (fun field => get field setData) (keys setData).

(** The row as the call leaves it, and what the call does. *)
Definition update (svc : service) (now : Z) (doc : object)
    (data : option object) (opts : query_options) : object * call :=
  let doc1 := _applyUpdates svc doc data in
  let doc2 := stamp svc now doc1 in
  match get (idField svc) doc2 with
  | VUndefined =>
      (doc2,
       Rejected "PostgresCrudService: Cannot update row if id field not provided!"
                "PostgresCrudService: Cannot update row if id field not provided")
  | id =>
      let setData := del (idField svc) doc2 in
      let args := setArgs setData in
      (doc2,
       Issued (mkQuery
                 (Update (schema svc) (table svc) (setsOf setData)
                         [CCmp (idField svc) Eq (length args + 1)] true)
                 (args ++ [id]) (client opts)))
  end.

(** ** bulkUpdate *)

Record bulk : Type := mkBulk {
  k_criteria : option object;
  k_data : object;
  k_reports : list (string * value);
  k_query : query
}.

Definition bulkUpdate (svc : service) (now : Z) (criteria : option object)
    (data : object) (opts : option query_options) : bulk :=
  let client_ := match opts with Some o => client o | None => None end in
  let conceal_ :=
    match opts with
    | Some o => match conceal o with Some c => c | None => true end
    | None => true
    end in
  let criteria0 := match criteria with Some c => c | None => [] end in
  let data1 := stamp svc now data in
  let setData := del (idField svc) data1 in
  let args := setArgs setData in
  let b0 := mkBuilder [] args [] in
  let '(criteria1, b1) :=
    if _concealDeadResources svc && conceal_
    then concealStatus svc criteria0 b0
    else (criteria0, b0) in
  let b := _buildCriteria criteria1 b1 true in
  mkBulk (match criteria with Some _ => Some criteria1 | None => None end)
    data1 (b_reports b)
    (mkQuery
       (Update (schema svc) (table svc) (setsOf setData) (b_where b) false)
       (b_args b) client_).

(** ** delete, bulkDelete *)

Definition delete (svc : service) (now : Z) (doc : object)
    (opts : query_options) : object * call :=
  update svc now (set (statusField svc) (VStr (_deletedStatus svc)) doc) None
    opts.

Definition bulkDelete (svc : service) (now : Z) (criteria : option object)
    (opts : query_options) : bulk :=
  bulkUpdate svc now criteria
    [(statusField svc, VStr (_deletedStatus svc))] (Some opts).

(** ** deletePermanently, bulkDeletePermanently *)

Definition deletePermanently (svc : service) (doc : object)
    (opts : query_options) : call :=
  match get (idField svc) doc with
  | VUndefined =>
      Rejected "PostgresCrudService: Cannot delete row if id field not provided!"
               "PostgresCrudService: Cannot delete row if id field not provided"
  | id =>
      Issued (mkQuery
                (Delete (schema svc) (table svc) [CCmp (idField svc) Eq 1] true)
                [id] (client opts))
  end.

Definition bulkDeletePermanently (svc : service) (criteria : option object)
    (opts : query_options) : bulk :=
  let conceal_ := match conceal opts with Some c => c | None => true end in
  let criteria0 := match criteria with Some c => c | None => [] end in
  let '(criteria1, b1) :=
    if _concealDeadResources svc && conceal_ then
      if truthy (get (statusField svc) criteria0) then
        (del (statusField svc) criteria0,
         mkBuilder [CStatus (statusField svc) 1 2]
                   [get (statusField svc) criteria0; VStr (_deletedStatus svc)]
                   [])
      else
        (set (statusField svc) (VObj [("$ne", VStr (_deletedStatus svc))])
             criteria0,
         empty_builder)
    else (criteria0, empty_builder) in
  let b := _buildCriteria criteria1 b1 true in
  mkBulk (match criteria with Some _ => Some criteria1 | None => None end)
    [] (b_reports b)
    (mkQuery (Delete (schema svc) (table svc) (b_where b) false)
             (b_args b) (client opts)).

(** ** What a statement means on a table

    The database is the collaborator behind [service.query]; its part
    that the service relies on is modelled here: a table is a list of rows,
    a comparison holds only between two non-null scalars of one type, and
    a [WHERE] list holds when each clause does.  [ORDER BY] is left out.

    [exec] says what a statement does to a table once the database runs
    it.  It does not say whether the database runs it: the table has no
    columns, types or constraints here, so a statement that PostgreSQL
    refuses (an unknown column, a value its column cannot read, an empty
    [IN ()], a violated constraint) still has a result.  Where a theorem
    says what a call resolves with, it is therefore about a call that has
    resolved; where the id or a column value is compared, about a table and
    a statement that are typed (see [conforms] and [statement_fits]
    below). *)

Definition store := list object.

Record result_set : Type := mkResult {
  rows : list object;
  rowCount : nat
}.

(** The value bound to [$p]. *)
Definition arg (args : list value) (p : nat) : value :=
  match p with
  | 0 => VUndefined
  | S i => nth i args VUndefined
  end.

(** [a = b] between two values of one type.  With a null, or between
    values of two types, it does not hold: PostgreSQL reads a bound value in
    the type of the column it is compared with, so this is its comparison
    where the value [fits] the column, and not where it would coerce, say,
    the string ['7'] to the integer of an integer column. *)
Definition sql_eq (a b : value) : bool :=
  match a, b with
  | VBool x, VBool y => Bool.eqb x y
  | VNum x, VNum y => (x =? y)%Z
  | VStr x, VStr y => (x =? y)
  | VDate x, VDate y => (x =? y)%Z
  | _, _ => false
  end.

Definition sql_lt (a b : value) : bool :=
  match a, b with
  | VNum x, VNum y => (x <? y)%Z
  | VStr x, VStr y => String.ltb x y
  | VDate x, VDate y => (x <? y)%Z
  | _, _ => false
  end.

Definition comparable (a b : value) : bool :=
  match a, b with
  | VBool _, VBool _ | VNum _, VNum _ | VStr _, VStr _ | VDate _, VDate _ =>
      true
  | _, _ => false
  end.

Definition sql_cmp (op : cmp) (a b : value) : bool :=
  match op with
  | Eq => sql_eq a b
  | Ne => comparable a b && negb (sql_eq a b)
  | Gt => sql_lt b a
  | Ge => sql_lt b a || sql_eq a b
  | Lt => sql_lt a b
  | Le => sql_lt a b || sql_eq a b
  end.

Definition lower_ascii (c : ascii) : ascii :=
  let n := nat_of_ascii c in
  if (65 <=? n)%nat && (n <=? 90)%nat then ascii_of_nat (n + 32) else c.

Fixpoint lower_string (s : string) : string :=
  match s with
  | EmptyString => EmptyString
  | String c s' => String (lower_ascii c) (lower_string s')
  end.

(** [LOWER(v)] *)
Definition sql_lower (v : value) : value :=
  match v with
  | VStr s => VStr (lower_string s)
  | _ => VNull
  end.

Definition eval_clause (args : list value) (r : object) (c : clause) : bool :=
  match c with
  | CIn f false ps => existsb (fun p => sql_eq (get f r) (arg args p)) ps
  | CIn f true ps => forallb (fun p => sql_cmp Ne (get f r) (arg args p)) ps
  | CCmp f op p => sql_cmp op (get f r) (arg args p)
  | CLower f neg p =>
      sql_cmp (if neg then Ne else Eq) (sql_lower (get f r))
              (sql_lower (arg args p))
  | CStatus f p q =>
      sql_cmp Eq (get f r) (arg args p) && sql_cmp Ne (get f r) (arg args q)
  end.

(** A row is selected when every clause of the [AND]-joined list holds. *)
Definition eval_where (args : list value) (where_ : list clause) (r : object)
    : bool :=
  forallb (eval_clause args r) where_.

Definition apply_sets (args : list value) (sets : list (string * nat))
    (r : object) : object :=
  fold_left (fun acc s => set (fst s) (arg args (snd s)) acc) sets r.

Definition count_of (v : value) : option nat :=
  match v with
  | VNum n => if (n <? 0)%Z then None else Some (Z.to_nat n)
  | _ => None
  end.

Definition exec (t : store) (q : query) : option (store * result_set) :=
  let args := q_args q in
  match q_stmt q with
  | Select proj _ _ where_ None offset lim =>
      let matched := filter (eval_where args where_) t in
      let out :=
        match proj with
        | PStar => matched
        | PCountStar => [[("count", VNum (Z.of_nat (length matched)))]]
        | PColumns cols =>
            map (fun r => map (fun c => (c, get c r)) cols) matched
        end in
      let skipped :=
        match offset with
        | None => Some out
        | Some p => option_map (fun n => skipn n out) (count_of (arg args p))
        end in
      let taken :=
        match lim, skipped with
        | _, None => None
        | LimitNone, Some rs => Some rs
        | LimitLiteral n, Some rs => Some (firstn n rs)
        | LimitParam p, Some rs =>
            option_map (fun n => firstn n rs) (count_of (arg args p))
        end in
      option_map (fun rs => (t, mkResult rs (length rs))) taken
  | Select _ _ _ _ (Some _) _ _ => None
  | Update _ _ sets where_ returning =>
      let t' :=
        map (fun r => if eval_where args where_ r then apply_sets args sets r
                      else r) t in
      let hit :=
        map (apply_sets args sets) (filter (eval_where args where_) t) in
      Some (t', mkResult (if returning then hit else []) (length hit))
  | Delete _ _ where_ returning =>
      let hit := filter (eval_where args where_) t in
      Some (filter (fun r => negb (eval_where args where_ r)) t,
            mkResult (if returning then hit else []) (length hit))
  | Insert _ _ cols ps =>
      let r := combine cols (map (arg args) ps) in
      Some (t ++ [r], mkResult [r] 1)
  end.

(** A call against a table: the table afterwards and what the promise gives,
    [post] being the [.then] of the method. *)
Definition settle (post : result_set -> value) (t : store) (c : call)
    : store * result value :=
  match c with
  | Rejected _ error => (t, Throw error)
  | Resolved v => (t, Ok v)
  | Issued q =>
      match exec t q with
      | Some (t', res) => (t', Ok (post res))
      | None => (t, Throw "statement outside the modelled fragment")
      end
  end.

(** [res => res.rows[0] || null] *)
Definition first_or_null (res : result_set) : value :=
  match rows res with
  | r :: _ => VObj r
  | [] => VNull
  end.

(** [res => res.rows[0]] *)
Definition first_row (res : result_set) : value :=
  match rows res with
  | r :: _ => VObj r
  | [] => VUndefined
  end.

Definition run_retrieve (svc : service) (t : store) (id : value)
    (opts : query_options) : store * result value :=
  settle first_or_null t (retrieve svc id opts).

Definition run_delete (svc : service) (now : Z) (t : store) (doc : object)
    (opts : query_options) : store * result value :=
  settle first_row t (snd (delete svc now doc opts)).

(** The service of the test suite. *)
Definition crud : service :=
  mkService "crud_test" "user" "id" "status" (Some "updated") 3 [] "dead" true.

(** ** Fixtures: the services and rows of the test suite *)

Definition uid_crud : service :=
  mkService "crud_test" "user" "uid" "status" (Some "updated") 3 [] "dead" true.

Definition keyed_crud : service :=
  mkService "crud_test" "user" "id" "status" (Some "updated") 3 ["id"]
            "dead" true.

Definition named_crud : service :=
  mkService "crud_test" "user" "id" "status" (Some "updated") 3
            ["first_name"] "dead" true.

Definition null_updatedField_options : options :=
  mkOptions true (Some "crud_test") (Some "user") None None None None None
            None None.

Definition page_two : query_options :=
  mkQueryOptions None (Some 2%Z) None None None None None.

Definition conceal_off : query_options :=
  mkQueryOptions None None None None None (Some false) None.

Definition one_user : store :=
  [[("id", VStr "c"); ("username", VStr "c"); ("status", VStr "active")]].

(** ** Vocabulary of the proofs *)

Definition update_error : string :=
  "PostgresCrudService: Cannot update row if id field not provided".

Definition delete_error : string :=
  "PostgresCrudService: Cannot delete row if id field not provided".

Definition with_conceal (on : bool) (svc : service) : service :=
  mkService (schema svc) (table svc) (idField svc) (statusField svc)
            (updatedField svc) (_createRetryCount svc) (_modifiableKeys svc)
            (_deletedStatus svc) on.

Definition where_of (st : statement) : list clause :=
  match st with
  | Select _ _ _ where_ _ _ _ => where_
  | Update _ _ _ where_ _ => where_
  | Delete _ _ where_ _ => where_
  | Insert _ _ _ _ => []
  end.

(** The row passes the statement's [WHERE]. *)
Definition selects (q : query) (r : object) : bool :=
  eval_where (q_args q) (where_of (q_stmt q)) r.

(** [b'] is [b] with clauses and arguments appended, the new placeholders
    counting on from the arguments [b] already had. *)
Definition grows (b b' : builder) : Prop :=
  exists w a,
    b_where b' = b_where b ++ w
    /\ b_args b' = b_args b ++ a
    /\ where_placeholders w = seq (length (b_args b) + 1) (length a).

(** The [$ne] step of the object case, read through [get]. *)
Definition ne_step (field : string) (entries : object) (b : builder)
    : builder :=
  if truthy (get "$ne" entries)
  then buildField field (get "$ne" entries) false b
  else b.

Definition finish (field : string) (v : value) (b b7 : builder) : builder :=
  if Nat.eqb (length (b_where b)) (length (b_where b7))
  then mkBuilder (b_where b7) (b_args b7) (b_reports b7 ++ [(field, v)])
  else b7.

(** The builder [find] ends with, before [OFFSET] and [LIMIT]. *)
Definition find_builder (svc : service) (criteria : option object)
    (opts : query_options) : builder :=
  let conceal_ := match conceal opts with Some c => c | None => true end in
  if _concealDeadResources svc && conceal_ then
    match criteria with
    | Some c =>
        _buildCriteria (fst (concealStatus svc c empty_builder))
          (snd (concealStatus svc c empty_builder)) true
    | None =>
        _buildCriteria
          [(statusField svc, VObj [("$ne", VStr (_deletedStatus svc))])]
          empty_builder true
    end
  else
    _buildCriteria (match criteria with Some c => c | None => [] end)
      empty_builder true.

Definition skip_args (opts : query_options) : list value :=
  match skip opts with Some n => [VNum n] | None => [] end.

Definition take_args (opts : query_options) : list value :=
  match take opts with Some n => [VNum n] | None => [] end.

(** A clause that compares the status column for inequality with an
    argument bound to [d]. *)
Definition blocks (status d : string) (args : list value) (c : clause)
    : Prop :=
  match c with
  | CCmp f Ne p => f = status /\ arg args p = VStr d
  | CStatus f _ q => f = status /\ arg args q = VStr d
  | _ => False
  end.

(** Some clause of the builder is such a clause. *)
Definition guarded (status d : string) (b : builder) : Prop :=
  exists c, In c (b_where b) /\ blocks status d (b_args b) c.

(** The compile of the caller's criteria alone, nothing injected. *)
Definition plain (criteria : option object) (b : builder) : builder :=
  _buildCriteria (match criteria with Some c => c | None => [] end) b true.

(** One step of the [forEach] over the modifiable keys. *)
Definition applyKey (d : object) (acc : object) (property : string)
    : object :=
  if truthy (get property d) then set property (get property d) acc else acc.

Definition range_key (op : cmp) : string :=
  match op with
  | Gt => "$gt" | Ge => "$gte" | Lt => "$lt" | Le => "$lte"
  | Eq => "" | Ne => ""
  end.

Definition is_range (op : cmp) : bool :=
  match op with
  | Gt | Ge | Lt | Le => true
  | Eq | Ne => false
  end.

(** ** What criteria ask of a row

    The reading of a criteria object that the comments of [_buildCriteria]
    and the README's operator table give: [{ field: value }] is equality,
    an array is membership, [$ne] negates either, [$gt], [$gte], [$lt] and
    [$lte] compare, [$eqi] and [$nei] compare the lowered texts; the operators
    of one object hold together, and an operator whose operand is falsy asks
    nothing (the source skips it). *)

Definition op_holds (key : string) (test : value -> value -> bool)
    (entries : object) (x : value) : bool :=
  if truthy (get key entries) then test x (get key entries) else true.

Fixpoint field_holds (field : string) (v : value) (equality : bool)
    (r : object) {struct v} : bool :=
  match v with
  | VArr items =>
      if equality then existsb (sql_eq (get field r)) items
      else forallb (sql_cmp Ne (get field r)) items
  | VObj entries =>
      (fix ne (es : list (string * value)) : bool :=
         match es with
         | [] => true
         | (k, x) :: es' =>
             if k =? "$ne"
             then (if truthy x then field_holds field x false r else true)
             else ne es'
         end) entries
      && op_holds "$gt" (sql_cmp Gt) entries (get field r)
      && op_holds "$gte" (sql_cmp Ge) entries (get field r)
      && op_holds "$lt" (sql_cmp Lt) entries (get field r)
      && op_holds "$lte" (sql_cmp Le) entries (get field r)
      && op_holds "$eqi" (fun a b => sql_cmp Eq (sql_lower a) (sql_lower b))
           entries (get field r)
      && op_holds "$nei" (fun a b => sql_cmp Ne (sql_lower a) (sql_lower b))
           entries (get field r)
  | _ => sql_cmp (if equality then Eq else Ne) (get field r) v
  end.

(** Every entry of the criteria holds of the row. *)
Definition criteria_hold (criteria : object) (equality : bool) (r : object)
    : bool :=
  forallb (fun fv => field_holds (fst fv) (snd fv) equality r) criteria.

(** [b'] is [b] with clauses and arguments appended that, read against the
    new argument vector (whatever is appended to it later), select the rows
    of [m]. *)
Definition means (b b' : builder) (m : object -> bool) : Prop :=
  exists w a,
    b_where b' = b_where b ++ w
    /\ b_args b' = b_args b ++ a
    /\ forall extra r, eval_where (b_args b ++ a ++ extra) w r = m r.

(** [find]'s promise: [res => res.rows], [None] where the statement is
    outside the modelled fragment. *)
Definition run_find (svc : service) (t : store) (criteria : option object)
    (opts : query_options) : option (list object) :=
  option_map (fun tr => rows (snd tr))
    (exec t (f_query (find svc criteria opts))).

(** The rows of a table that pass a statement's [WHERE]. *)
Definition matching (q : query) (t : store) : list object :=
  filter (selects q) t.

(** [conceal = true] unless the option says otherwise. *)
Definition concealing (svc : service) (opts : query_options) : bool :=
  _concealDeadResources svc
  && match conceal opts with Some c => c | None => true end.

(** The row's status column is comparable with, and differs from, the
    deleted status. *)
Definition live (svc : service) (r : object) : bool :=
  sql_cmp Ne (get (statusField svc) r) (VStr (_deletedStatus svc)).

(** The placeholders of the statement, in text order, are [$1 .. $n] for
    its [n] arguments. *)
Definition numbered (q : query) : Prop :=
  placeholders (q_stmt q) = seq 1 (length (q_args q)).

(** The columns an [UPDATE] assigns. *)
Definition set_columns (st : statement) : list string :=
  match st with
  | Update _ _ sets _ _ => map fst sets
  | _ => []
  end.

(** [update]'s promise against a table: [res => res.rows[0]]. *)
Definition run_update (svc : service) (now : Z) (t : store) (doc : object)
    (data : option object) (opts : query_options) : store * result value :=
  settle first_row t (snd (update svc now doc data opts)).

(** The result object itself, for the methods that resolve with [res]. *)
Definition whole (res : result_set) : value :=
  VObj [("rows", VArr (map VObj (rows res)));
        ("rowCount", VNum (Z.of_nat (rowCount res)))].

Definition run_deletePermanently (svc : service) (t : store) (doc : object)
    (opts : query_options) : store * result value :=
  settle whole t (deletePermanently svc doc opts).

(** The bulk methods resolve with the result of their one statement. *)
Definition run_bulk (t : store) (k : bulk) : option (store * result_set) :=
  exec t (k_query k).

(** [create]'s promise against a table: [res => res.rows[0]]. *)
Definition run_create (svc : service) (t : store) (data : object)
    (opts : query_options) : store * result value :=
  settle first_row t (create svc data opts).

(** [BigInt(v)] for the values the modelled table returns. *)
Definition bigint (v : value) : option Z :=
  match v with
  | VNum n => Some n
  | VBool b => Some (if b then 1%Z else 0%Z)
  | _ => None
  end.

(** [count]'s promise against a table:
    [rows => BigInt(rows && rows.length && rows[0].count)]. *)
Definition run_count (svc : service) (t : store) (criteria : option object)
    (opts : query_options) : option Z :=
  match exec t (f_query (count svc criteria opts)) with
  | Some (_, res) =>
      match rows res with
      | [] => bigint (VNum 0)
      | r :: _ => bigint (get "count" r)
      end
  | None => None
  end.

(** The options [count] needs of the caller's: the session and [conceal]. *)
Definition count_options (opts : query_options) : query_options :=
  mkQueryOptions (client opts) None None None None (conceal opts) None.

(** ** PostgresService: the pool

    What the service does is a trace of [event]s; how the pool and the
    driver answer is a [world].  The world does not change during a call. *)

Inductive event : Type :=
| Connect
| ClientQuery (client : nat) (sql : string) (args : list value)
| Release (client : nat)
| Report (message : string).

Record world : Type := mkWorld {
  w_connect : result nat;
  w_run : nat -> string -> list value -> result result_set
}.

(** A computation: what it did, and its value or the error it threw. *)
Definition M (A : Type) : Type := (list event * result A)%type.

Definition ret {A : Type} (a : A) : M A := ([], Ok a).

Definition throw {A : Type} (e : string) : M A := ([], Throw e).

Definition bind {A B : Type} (m : M A) (f : A -> M B) : M B :=
  match m with
  | (tr, Ok a) => (tr ++ fst (f a), snd (f a))
  | (tr, Throw e) => (tr, Throw e)
  end.

Notation "x <- m ;; k" := (bind m (fun x => k))
  (at level 61, m at next level, right associativity).
Notation "m ;; k" := (bind m (fun _ => k))
  (at level 61, right associativity).

(** [try { m } catch (err) { handler }] *)
Definition try_catch {A : Type} (m : M A) (handler : string -> M A) : M A :=
  match m with
  | (tr, Throw e) => (tr ++ fst (handler e), snd (handler e))
  | done => done
  end.

(** [try { m } finally { fin }] *)
Definition finally {A : Type} (m : M A) (fin : M unit) : M A :=
  (fst m ++ fst fin,
   match snd fin with
   | Throw e => Throw e
   | Ok _ => snd m
   end).

Definition emit (e : event) : M unit := ([e], Ok tt).

(** [this.pool.connect()] *)
Definition getConnection (w : world) : M nat :=
  (Connect :: nil, w_connect w).

(** [client.query(sql, args)] *)
Definition client_query (w : world) (c : nat) (sql : string)
    (args : list value) : M result_set :=
  (ClientQuery c sql args :: nil, w_run w c sql args).

(** The [suppress] option: absent, a value that is no [RegExp], or a
    [RegExp] with its [test]. *)
Inductive suppress : Type :=
| SuppressNone
| SuppressOther
| SuppressRegExp (test : string -> bool).

Record pool_options : Type := mkPoolOptions {
  p_client : option nat;
  p_suppress : suppress
}.

(** [!suppress || !(suppress instanceof RegExp) || !suppress.test(message)] *)
Definition reported (s : suppress) (message : string) : bool :=
  match s with
  | SuppressRegExp test => negb (test message)
  | _ => true
  end.

Definition execute_failed : string :=
  "PostgresService: Failed to execute query".

Definition acquire_failed : string :=
  "PostgresService: Failed to acquire query client".

(** [promise.then(onFulfilled, onRejected)] *)
Definition then_ {A B : Type} (m : M A) (onFulfilled : A -> M B)
    (onRejected : string -> M B) : M B :=
  match m with
  | (tr, Ok a) => (tr ++ fst (onFulfilled a), snd (onFulfilled a))
  | (tr, Throw e) => (tr ++ fst (onRejected e), snd (onRejected e))
  end.

(** [PostgresService.query(sql, args, options)] *)
Definition service_query (w : world) (sql : string) (args : list value)
    (opts : pool_options) : M result_set :=
  let '(resolveConnection, releaseClientOnFinish) :=
    match p_client opts with
    | Some c => (ret c, false)
    | None => (getConnection w, true)
    end in
  then_ resolveConnection
    (fun c =>
       try_catch
         (res <- client_query w c sql args ;;
          (if releaseClientOnFinish then emit (Release c) else ret tt) ;;
          ret res)
         (fun message =>
            (if reported (p_suppress opts) message
             then emit (Report execute_failed) else ret tt) ;;
            (if releaseClientOnFinish then emit (Release c) else ret tt) ;;
            throw message))
    (fun message => emit (Report acquire_failed) ;; throw message).

(** ** init and its hooks *)

Record hooks : Type := mkHooks {
  _createSchema : nat -> M unit;
  _updateSchema : nat -> M unit;
  _createTable : nat -> M unit;
  _updateTable : nat -> M unit
}.

Definition createTable_error : string :=
  "PostgresCrudService: Method _createTable must be overridden to properly create your table".

Definition init_failed : string := "PostgresCrudService: Failed to initialize".

Definition create_schema_sql (svc : service) : string :=
  "CREATE SCHEMA " +++ quote (schema svc) +++ ";".

Definition schema_sql : string :=
  "SELECT schema_name FROM information_schema.schemata WHERE schema_name = $1".

Definition table_sql : string :=
  "SELECT tablename FROM pg_catalog.pg_tables WHERE schemaname = $1 AND tablename = $2".

(** The hooks of the base class. *)
Definition base_hooks (svc : service) (w : world) : hooks :=
  mkHooks
    (fun c =>
       service_query w (create_schema_sql svc) []
         (mkPoolOptions (Some c) SuppressNone) ;;
       ret tt)
    (fun _ => ret tt)
    (fun _ => emit (Report createTable_error) ;; throw createTable_error)
    (fun _ => ret tt).

(** The body of [init]'s [try]. *)
Definition init_body (svc : service) (w : world) (h : hooks) (c : nat)
    : M unit :=
  client_query w c "BEGIN" [] ;;
  schemas <- service_query w schema_sql [VStr (schema svc)]
               (mkPoolOptions (Some c) SuppressNone) ;;
  (if (0 <? rowCount schemas)%nat then _updateSchema h c
   else _createSchema h c) ;;
  tables <- service_query w table_sql [VStr (schema svc); VStr (table svc)]
              (mkPoolOptions (Some c) SuppressNone) ;;
  (if (0 <? rowCount tables)%nat then _updateTable h c
   else _createTable h c) ;;
  client_query w c "COMMIT" [] ;;
  ret tt.

Definition init (svc : service) (w : world) (h : hooks) : M unit :=
  c <- getConnection w ;;
  finally
    (try_catch (init_body svc w h c)
       (fun err =>
          emit (Report init_failed) ;;
          client_query w c "ROLLBACK" [] ;;
          throw err))
    (emit (Release c)).

(** Whether the catalog query finds a row: [res.rowCount > 0]. *)
Definition found_in_catalog (w : world) (c : nat) (sql : string)
    (args : list value) : bool :=
  match w_run w c sql args with
  | Ok res => (0 <? rowCount res)%nat
  | Throw _ => false
  end.

Definition schema_exists (svc : service) (w : world) (c : nat) : bool :=
  found_in_catalog w c schema_sql [VStr (schema svc)].

Definition table_exists (svc : service) (w : world) (c : nat) : bool :=
  found_in_catalog w c table_sql [VStr (schema svc); VStr (table svc)].

(** The hook [init] runs for the schema, and the one for the table. *)
Definition schema_hook (svc : service) (w : world) (h : hooks) (c : nat)
    : M unit :=
  if schema_exists svc w c then _updateSchema h c else _createSchema h c.

Definition table_hook (svc : service) (w : world) (h : hooks) (c : nat)
    : M unit :=
  if table_exists svc w c then _updateTable h c else _createTable h c.

(** The driver completes the statement. *)
Definition completes (w : world) (c : nat) (sql : string) (args : list value)
    : Prop :=
  exists res, w_run w c sql args = Ok res.

(** ** Further vocabulary and fixtures *)

(** What the rows that [find] selects satisfy, in terms of the criteria as
    the merge leaves them. *)
Definition find_holds (svc : service) (criteria : option object)
    (opts : query_options) (r : object) : bool :=
  if concealing svc opts then
    match criteria with
    | Some c =>
        (if truthy (get (statusField svc) c)
         then sql_cmp Eq (get (statusField svc) r) (get (statusField svc) c)
              && live svc r
         else true)
        && criteria_hold (fst (concealStatus svc c empty_builder)) true r
    | None =>
        criteria_hold
          [(statusField svc, VObj [("$ne", VStr (_deletedStatus svc))])]
          true r
    end
  else criteria_hold (match criteria with Some c => c | None => [] end) true r.

Definition releases (tr : list event) : list nat :=
  flat_map (fun e => match e with Release c => [c] | _ => [] end) tr.

Definition connects (tr : list event) : nat :=
  length (filter (fun e => match e with Connect => true | _ => false end) tr).

Definition reports (tr : list event) : list string :=
  flat_map (fun e => match e with Report m => [m] | _ => [] end) tr.

Definition failing_world : world :=
  mkWorld (Ok 4)
          (fun _ _ _ => Throw "unrecognized configuration parameter").

Definition empty_database : world :=
  mkWorld (Ok 1) (fun _ _ _ => Ok (mkResult [] 0)).

Definition ready_database : world :=
  mkWorld (Ok 1) (fun _ _ _ => Ok (mkResult [[("found", VNum 1)]] 1)).

Definition dead_and_live : store :=
  [[("id", VStr "a"); ("status", VStr "dead")];
   [("id", VStr "b"); ("status", VStr "active")]].

(** ** Typed tables and statements

    [exec] gives the result of a statement that PostgreSQL runs; whether it
    runs it (known columns, values of the columns' types, a well-formed
    list) is said here.  PostgreSQL types a bound value from its column, so
    [sql_eq] is its comparison only where the value has the column's type:
    that is what [statement_fits] asks, on a table that [conforms]. *)

Inductive ty : Type := TBool | TNum | TStr | TDate.

(** The columns of a table and their types. *)
Definition catalog := list (string * ty).

Fixpoint column_type (cols : catalog) (k : string) : option ty :=
  match cols with
  | [] => None
  | (k', y) :: cols' => if k' =? k then Some y else column_type cols' k
  end.

Definition is_null (v : value) : bool :=
  match v with
  | VNull | VUndefined => true
  | _ => false
  end.

Definition has_type (v : value) (y : ty) : bool :=
  match v, y with
  | VBool _, TBool | VNum _, TNum | VStr _, TStr | VDate _, TDate => true
  | _, _ => false
  end.

(** [v] can be stored in, or compared with, column [k]. *)
Definition fits (cols : catalog) (k : string) (v : value) : bool :=
  match column_type cols k with
  | Some y => is_null v || has_type v y
  | None => false
  end.

Definition known (cols : catalog) (k : string) : bool :=
  match column_type cols k with
  | Some _ => true
  | None => false
  end.

(** Every row holds, in known columns only, nulls or values of the column's
    type. *)
Definition conforms (cols : catalog) (t : store) : bool :=
  forallb (fun r => forallb (fun kv => fits cols (fst kv) (snd kv)) r) t.

Definition nonempty {A : Type} (l : list A) : bool :=
  match l with
  | [] => false
  | _ => true
  end.

Definition clause_fits (cols : catalog) (args : list value) (c : clause)
    : bool :=
  match c with
  | CIn f _ ps => nonempty ps && forallb (fun p => fits cols f (arg args p)) ps
  | CCmp f _ p => fits cols f (arg args p)
  | CLower f _ p =>
      match column_type cols f with
      | Some TStr => is_null (arg args p) || has_type (arg args p) TStr
      | _ => false
      end
  | CStatus f p q => fits cols f (arg args p) && fits cols f (arg args q)
  end.

Definition count_fits (v : value) : bool :=
  match count_of v with
  | Some _ => true
  | None => false
  end.

(** The statement names known columns only, binds to each column a null or a
    value of its type, and has no empty [IN ()], [SET], column or [ORDER BY]
    list. *)
Definition statement_fits (cols : catalog) (q : query) : bool :=
  let args := q_args q in
  match q_stmt q with
  | Select proj _ _ where_ order offset lim =>
      forallb (clause_fits cols args) where_
      && match proj with
         | PColumns cs => nonempty cs && forallb (known cols) cs
         | _ => true
         end
      && match order with
         | Some fs => nonempty fs && forallb (fun fa => known cols (fst fa)) fs
         | None => true
         end
      && match offset with
         | Some p => count_fits (arg args p)
         | None => true
         end
      && match lim with
         | LimitParam p => count_fits (arg args p)
         | _ => true
         end
  | Update _ _ sets where_ _ =>
      nonempty sets
      && forallb (fun s => fits cols (fst s) (arg args (snd s))) sets
      && forallb (clause_fits cols args) where_
  | Delete _ _ where_ _ => forallb (clause_fits cols args) where_
  | Insert _ _ cs ps =>
      nonempty cs
      && forallb (fun cp => fits cols (fst cp) (arg args (snd cp)))
                 (combine cs ps)
  end.

Definition call_fits (cols : catalog) (c : call) : bool :=
  match c with
  | Issued q => statement_fits cols q
  | _ => true
  end.

(** The columns of the test suite's table. *)
Definition user_columns : catalog :=
  [("id", TStr); ("username", TStr); ("email", TStr); ("first_name", TStr);
   ("last_name", TStr); ("status", TStr); ("created", TDate);
   ("updated", TDate)].

(** Rows as that table stores them. *)
Definition user_a : object :=
  [("id", VStr "a"); ("username", VStr "a"); ("email", VNull);
   ("first_name", VStr "x"); ("last_name", VNull); ("status", VStr "active");
   ("created", VDate 1); ("updated", VDate 1)].

Definition user_b : object :=
  [("id", VStr "b"); ("username", VStr "b"); ("email", VNull);
   ("first_name", VStr "y"); ("last_name", VNull); ("status", VStr "active");
   ("created", VDate 2); ("updated", VDate 2)].

Definition user_n : object :=
  [("id", VStr "n"); ("username", VStr "n"); ("email", VNull);
   ("first_name", VNull); ("last_name", VNull); ("status", VStr "active");
   ("created", VDate 5); ("updated", VDate 5)].

Definition two_users : store := [user_a; user_b].

(** ** Checks against statements of the test suite *)

Example find_status_active :
  let q := f_query (find crud (Some [("status", VStr "active")]) no_options) in
  render (q_stmt q)
    = "SELECT * FROM " +++ quote "crud_test" +++ "." +++ quote "user"
        +++ " WHERE " +++ quote "status" +++ " = $1 AND " +++ quote "status"
        +++ " != $2"
  /\ q_args q = [VStr "active"; VStr "dead"].
Proof. split; reflexivity. Qed.

Example find_not_in_paged :
  let q :=
    f_query
      (find crud (Some [("id", VObj [("$ne", VArr [VStr "a"; VStr "b"])])])
         (mkQueryOptions None (Some 2%Z) (Some 5%Z)
            (Some [("username", VNum 1)])
            (Some [("id", (-1)%Z); ("username", 1%Z)]) None None)) in
  render (q_stmt q)
    = "SELECT " +++ quote "username" +++ ", " +++ quote "id" +++ " FROM "
        +++ quote "crud_test" +++ "." +++ quote "user" +++ " WHERE " +++ quote "id"
        +++ " NOT IN ($1, $2) AND " +++ quote "status" +++ " != $3 ORDER BY "
        +++ quote "id" +++ " DESC," +++ quote "username"
        +++ " ASC OFFSET $4 LIMIT $5"
  /\ q_args q = [VStr "a"; VStr "b"; VStr "dead"; VNum 2; VNum 5].
Proof. split; reflexivity. Qed.

Example retrieve_text :
  match retrieve crud (VStr "a") no_options with
  | Issued q =>
      render (q_stmt q)
        = "SELECT * FROM " +++ quote "crud_test" +++ "." +++ quote "user"
            +++ " WHERE " +++ quote "id" +++ " = $1 AND " +++ quote "status"
            +++ " != $2 LIMIT 1"
  | _ => False
  end.
Proof. reflexivity. Qed.

(** ** Objects *)

Section Objects.

Lemma get_set_same (k : string) (v : value) (o : object) :
  get k (set k v o) = v.
Proof.
  induction o as [|[k' v'] o IH]; simpl.
  - now rewrite String.eqb_refl.
  - destruct (k' =? k) eqn:E; simpl.
    + now rewrite String.eqb_refl.
    + now rewrite E.
Qed.

Lemma get_set_other (k k' : string) (v : value) (o : object) :
  k <> k' -> get k' (set k v o) = get k' o.
Proof.
  intros Hne.
  induction o as [|[k0 v0] o IH]; simpl.
  - destruct (k =? k') eqn:E; auto.
    apply String.eqb_eq in E. contradiction.
  - destruct (k0 =? k) eqn:E; simpl.
    + apply String.eqb_eq in E. subst k0.
      destruct (k =? k') eqn:E'; auto.
      apply String.eqb_eq in E'. contradiction.
    + destruct (k0 =? k'); auto.
Qed.

Lemma get_del_same (k : string) (o : object) : get k (del k o) = VUndefined.
Proof.
  induction o as [|[k' v'] o IH]; simpl; auto.
  destruct (k' =? k) eqn:E; simpl; auto. now rewrite E.
Qed.

Lemma get_del_other (k k' : string) (o : object) :
  k <> k' -> get k' (del k o) = get k' o.
Proof.
  intros Hne.
  induction o as [|[k0 v0] o IH]; simpl; auto.
  destruct (k0 =? k) eqn:E; simpl.
  - apply String.eqb_eq in E. subst k0.
    destruct (k =? k') eqn:E'; auto.
    apply String.eqb_eq in E'. contradiction.
  - destruct (k0 =? k'); auto.
Qed.

End Objects.

(** ** Induction on values *)

Section ValueInduction.

Variable P : value -> Prop.
Hypothesis Hundefined : P VUndefined.
Hypothesis Hnull : P VNull.
Hypothesis Hbool : forall b, P (VBool b).
Hypothesis Hnum : forall n, P (VNum n).
Hypothesis Hstr : forall s, P (VStr s).
Hypothesis Hdate : forall t, P (VDate t).
Hypothesis Hbuffer : forall bs, P (VBuffer bs).
Hypothesis Harr : forall items, Forall P items -> P (VArr items).
Hypothesis Hobj :
  forall entries, Forall (fun kv => P (snd kv)) entries -> P (VObj entries).

Fixpoint value_nested_ind (v : value) : P v :=
  match v with
  | VUndefined => Hundefined
  | VNull => Hnull
  | VBool b => Hbool b
  | VNum n => Hnum n
  | VStr s => Hstr s
  | VDate t => Hdate t
  | VBuffer bs => Hbuffer bs
  | VArr items =>
      Harr items
        ((fix go (l : list value) : Forall P l :=
            match l with
            | [] => Forall_nil P
            | x :: l' => Forall_cons x (value_nested_ind x) (go l')
            end) items)
  | VObj entries =>
      Hobj entries
        ((fix go (l : list (string * value))
            : Forall (fun kv => P (snd kv)) l :=
            match l with
            | [] => Forall_nil _
            | (k, x) :: l' =>
                Forall_cons (P := fun kv => P (snd kv)) (k, x)
                  (value_nested_ind x) (go l')
            end) entries)
  end.

Lemma get_Forall (k : string) (o : object) :
  Forall (fun kv => P (snd kv)) o -> P (get k o).
Proof.
  induction 1 as [|[k' v'] o Hv _ IH]; simpl; auto.
  destruct (k' =? k); auto.
Qed.

End ValueInduction.

(** ** The criteria compiler appends, and numbers what it appends *)

Section Compiler.

Lemma grows_refl (b : builder) : grows b b.
Proof. exists [], []. now rewrite !app_nil_r. Qed.

Lemma grows_trans (b1 b2 b3 : builder) :
  grows b1 b2 -> grows b2 b3 -> grows b1 b3.
Proof.
  intros (w1 & a1 & Hw1 & Ha1 & Hp1) (w2 & a2 & Hw2 & Ha2 & Hp2).
  exists (w1 ++ w2), (a1 ++ a2). repeat split.
  - now rewrite Hw2, Hw1, app_assoc.
  - now rewrite Ha2, Ha1, app_assoc.
  - unfold where_placeholders in *. rewrite flat_map_app, Hp1, Hp2.
    rewrite Ha1, !length_app, seq_app. f_equal. f_equal. lia.
Qed.

Lemma grows_push (c : clause) (vs : list value) (b : builder) :
  clause_placeholders c = seq (next b) (length vs) ->
  grows b (push c vs b).
Proof.
  intros Hc. exists [c], vs. repeat split.
  unfold where_placeholders. simpl. now rewrite app_nil_r.
Qed.

Lemma grows_operator (key : string) (mk : nat -> clause) (es : object)
    (b : builder) :
  (forall p, clause_placeholders (mk p) = [p]) ->
  grows b (operator key mk es b).
Proof.
  intros Hmk. unfold operator. destruct (truthy (get key es)).
  - apply grows_push. now rewrite Hmk.
  - apply grows_refl.
Qed.

Lemma buildField_object (field : string) (entries : object) (equality : bool)
    (b : builder) :
  buildField field (VObj entries) equality b
  = finish field (VObj entries) b
      (operator "$nei" (CLower field true) entries
      (operator "$eqi" (CLower field false) entries
      (operator "$lte" (CCmp field Le) entries
      (operator "$lt" (CCmp field Lt) entries
      (operator "$gte" (CCmp field Ge) entries
      (operator "$gt" (CCmp field Gt) entries
      (ne_step field entries b))))))).
Proof.
  assert (Hne :
    (fix ne (es : list (string * value)) : builder :=
       match es with
       | [] => b
       | (k, x) :: es' =>
           if k =? "$ne"
           then (if truthy x then buildField field x false b else b)
           else ne es'
       end) entries = ne_step field entries b).
  { unfold ne_step. induction entries as [|[k x] es IH]; simpl; auto.
    destruct (k =? "$ne"); auto. }
  simpl. rewrite Hne. reflexivity.
Qed.

Lemma grows_finish (field : string) (v : value) (b0 b b7 : builder) :
  grows b b7 -> grows b (finish field v b0 b7).
Proof.
  unfold finish. destruct (Nat.eqb _ _); auto.
Qed.

Lemma grows_buildField (v : value) :
  forall field equality b, grows b (buildField field v equality b).
Proof.
  induction v as [ | | x | n | s | t | bs | items IH | entries IH]
    using value_nested_ind;
    intros field equality b; try (apply grows_push; reflexivity).
  rewrite buildField_object. apply grows_finish.
  assert (Hne : grows b (ne_step field entries b)).
  { unfold ne_step. destruct (truthy (get "$ne" entries)).
    - apply (get_Forall
               (fun x => forall f e b0, grows b0 (buildField f x e b0)));
        [intros; apply grows_push; reflexivity | assumption].
    - apply grows_refl. }
  repeat (eapply grows_trans; [|apply grows_operator; reflexivity]).
  exact Hne.
Qed.

Lemma grows_buildCriteria (criteria : object) :
  forall b equality, grows b (_buildCriteria criteria b equality).
Proof.
  unfold _buildCriteria.
  induction criteria as [|[f v] cs IH]; intros b equality; simpl.
  - apply grows_refl.
  - eapply grows_trans; [apply grows_buildField | apply IH].
Qed.

Lemma buildCriteria_app (c1 c2 : object) (b : builder) (equality : bool) :
  _buildCriteria (c1 ++ c2) b equality
  = _buildCriteria c2 (_buildCriteria c1 b equality) equality.
Proof. unfold _buildCriteria. apply fold_left_app. Qed.

(** What the injected [{ $ne: deletedStatus }] compiles to. *)
Lemma buildField_ne_string (field d : string) (equality : bool)
    (b : builder) :
  d <> "" ->
  buildField field (VObj [("$ne", VStr d)]) equality b
  = push (CCmp field Ne (next b)) [VStr d] b.
Proof.
  intros Hd. rewrite buildField_object. unfold ne_step, operator. simpl.
  destruct (d =? "") eqn:E; [apply String.eqb_eq in E; contradiction|].
  simpl. unfold finish. simpl. rewrite length_app. simpl.
  destruct (Nat.eqb_spec (length (b_where b)) (length (b_where b) + 1));
    [lia | reflexivity].
Qed.

End Compiler.

(** ** Placeholders and arguments of [find] *)

Section Placeholders.

Lemma grows_concealStatus (svc : service) (c : object) (b : builder) :
  grows b (snd (concealStatus svc c b)).
Proof.
  unfold concealStatus. destruct (truthy (get (statusField svc) c)); simpl.
  - exists [CStatus (statusField svc) (length (b_args b) + 1)
                    (length (b_args b) + 2)],
           [get (statusField svc) c; VStr (_deletedStatus svc)].
    repeat split. simpl. do 2 f_equal. lia.
  - apply grows_refl.
Qed.

Lemma find_query_eq (svc : service) (criteria : option object)
    (opts : query_options) :
  let b := find_builder svc criteria opts in
  f_query (find svc criteria opts)
  = mkQuery
      (Select
         (match (match mode opts with Some _ => None | None => fields opts end)
          with
          | Some fs => PColumns (allowedFields fs)
          | None =>
              match mode opts with
              | Some m => if m =? _QUERY_MODE_COUNT then PCountStar else PStar
              | None => PStar
              end
          end)
         (schema svc) (table svc) (b_where b)
         (match sort opts with
          | Some s =>
              Some (map (fun fn : string * Z => (fst fn, (0 <? snd fn)%Z)) s)
          | None => None
          end)
         (match skip opts with
          | Some _ => Some (length (b_args b) + 1)
          | None => None
          end)
         (match take opts with
          | Some _ =>
              LimitParam (length (b_args b ++ skip_args opts) + 1)
          | None => LimitNone
          end))
      (b_args b ++ skip_args opts ++ take_args opts)
      (client opts).
Proof.
  unfold find, find_builder, skip_args, take_args.
  destruct (_concealDeadResources svc
            && match conceal opts with Some c => c | None => true end);
    [destruct criteria as [c|];
     [destruct (concealStatus svc c empty_builder)|]|];
    simpl; destruct (skip opts), (take opts); simpl;
    rewrite ?app_nil_r, <- ?app_assoc; reflexivity.
Qed.

(** What [find] leaves in the caller's criteria and options. *)
Lemma find_criteria_eq (svc : service) (criteria : option object)
    (opts : query_options) :
  f_criteria (find svc criteria opts)
  = if _concealDeadResources svc
       && match conceal opts with Some c => c | None => true end
    then match criteria with
         | Some c => Some (fst (concealStatus svc c empty_builder))
         | None => None
         end
    else criteria.
Proof.
  unfold find.
  destruct (_concealDeadResources svc
            && match conceal opts with Some c => c | None => true end);
    [destruct criteria as [c|];
     [destruct (concealStatus svc c empty_builder)|]|];
    simpl; destruct (skip opts), (take opts); reflexivity.
Qed.

Lemma find_options_eq (svc : service) (criteria : option object)
    (opts : query_options) :
  f_options (find svc criteria opts)
  = mkQueryOptions (client opts) None None None None None None.
Proof.
  unfold find.
  destruct (_concealDeadResources svc
            && match conceal opts with Some c => c | None => true end);
    [destruct criteria as [c|];
     [destruct (concealStatus svc c empty_builder)|]|];
    simpl; destruct (skip opts), (take opts); reflexivity.
Qed.

Lemma grows_find_builder (svc : service) (criteria : option object)
    (opts : query_options) :
  grows empty_builder (find_builder svc criteria opts).
Proof.
  unfold find_builder.
  destruct (_concealDeadResources svc && _);
    [destruct criteria as [c|]|]; try apply grows_buildCriteria.
  eapply grows_trans; [apply grows_concealStatus | apply grows_buildCriteria].
Qed.

Lemma find_builder_numbered (svc : service) (criteria : option object)
    (opts : query_options) :
  where_placeholders (b_where (find_builder svc criteria opts))
  = seq 1 (length (b_args (find_builder svc criteria opts))).
Proof.
  destruct (grows_find_builder svc criteria opts) as (w & a & Hw & Ha & Hp).
  simpl in *. now rewrite Hw, Ha.
Qed.

End Placeholders.

(** C3. In the statement [find] produces, the placeholders read in the order
    of the text are [$1, $2, ..., $n] for the [n] values of the argument
    vector: the [WHERE] clauses carry [$1 .. $m] for the [m] arguments the
    compiler appended, and the [OFFSET] and [LIMIT] values are appended after
    them and take the next numbers. *)
Theorem find_placeholders_match_args (svc : service)
    (criteria : option object) (opts : query_options) :
  let q := f_query (find svc criteria opts) in
  placeholders (q_stmt q) = seq 1 (length (q_args q))
  /\ exists proj where_ order offset lim wargs,
       q_stmt q = Select proj (schema svc) (table svc) where_ order offset lim
       /\ where_placeholders where_ = seq 1 (length wargs)
       /\ q_args q = wargs ++ skip_args opts ++ take_args opts
       /\ offset = match skip opts with
                   | Some _ => Some (length wargs + 1)
                   | None => None
                   end
       /\ lim = match take opts with
                | Some _ =>
                    LimitParam (length wargs + length (skip_args opts) + 1)
                | None => LimitNone
                end.
Proof.
  intros q. subst q. rewrite find_query_eq. cbv zeta.
  pose proof (find_builder_numbered svc criteria opts) as Hn.
  set (b := find_builder svc criteria opts) in *.
  split.
  - simpl. rewrite Hn. unfold skip_args, take_args.
    destruct (skip opts), (take opts); simpl;
      rewrite ?app_nil_r, ?length_app; simpl;
      rewrite ?seq_app; simpl; rewrite ?app_nil_r, <- ?app_assoc; simpl;
      repeat f_equal; lia.
  - do 6 eexists. split; [reflexivity|]. split; [exact Hn|].
    split; [reflexivity|]. split; [reflexivity|].
    simpl. rewrite length_app. reflexivity.
Qed.

(** ** Concealment *)

Section Concealment.

Variables status d : string.

Lemma arg_app (args extra : list value) (p : nat) :
  arg args p = VStr d -> arg (args ++ extra) p = VStr d.
Proof.
  destruct p as [|i]; simpl; [discriminate|].
  intros H. destruct (Nat.lt_ge_cases i (length args)) as [Hlt|Hge].
  - now rewrite app_nth1.
  - rewrite nth_overflow in H by assumption. discriminate.
Qed.

Lemma blocks_app (args extra : list value) (c : clause) :
  blocks status d args c -> blocks status d (args ++ extra) c.
Proof.
  destruct c as [| f [] p | | f p q]; simpl; auto;
    intros [Hf Ha]; split; auto using arg_app.
Qed.

Lemma guarded_grows (b b' : builder) :
  grows b b' -> guarded status d b -> guarded status d b'.
Proof.
  intros (w & a & Hw & Ha & _) (c & Hin & Hc).
  exists c. rewrite Hw, Ha. split.
  - apply in_or_app. now left.
  - now apply blocks_app.
Qed.

Lemma blocks_eval (args : list value) (c : clause) (r : object) :
  blocks status d args c -> get status r = VStr d ->
  eval_clause args r c = false.
Proof.
  destruct c as [| f [] p | | f p q]; simpl; try contradiction;
    intros [-> Ha] Hr; rewrite Hr, Ha; simpl; rewrite String.eqb_refl;
    simpl; auto using andb_false_r.
Qed.

Lemma guarded_eval (b : builder) (extra : list value) (r : object) :
  guarded status d b -> get status r = VStr d ->
  eval_where (b_args b ++ extra) (b_where b) r = false.
Proof.
  intros (c & Hin & Hc) Hr. unfold eval_where.
  destruct (forallb _ _) eqn:E; auto.
  rewrite forallb_forall in E. specialize (E c Hin).
  rewrite (blocks_eval _ c r (blocks_app _ extra c Hc) Hr) in E.
  discriminate.
Qed.

Lemma arg_last (args : list value) (v : value) :
  arg (args ++ [v]) (length args + 1) = v.
Proof.
  rewrite Nat.add_1_r. simpl. rewrite app_nth2 by lia.
  now rewrite Nat.sub_diag.
Qed.

Lemma guarded_inject (criteria : object) (b : builder) :
  d <> "" ->
  In (status, VObj [("$ne", VStr d)]) criteria ->
  guarded status d (_buildCriteria criteria b true).
Proof.
  intros Hd Hin. apply in_split in Hin. destruct Hin as (c1 & c2 & ->).
  rewrite buildCriteria_app.
  change ((status, VObj [("$ne", VStr d)]) :: c2)
    with ([(status, VObj [("$ne", VStr d)])] ++ c2).
  rewrite buildCriteria_app.
  eapply guarded_grows; [apply grows_buildCriteria|].
  unfold _buildCriteria at 1. cbn [fold_left fst snd].
  rewrite buildField_ne_string by assumption.
  exists (CCmp status Ne (next (_buildCriteria c1 b true))). split.
  - simpl. apply in_or_app. right. now left.
  - simpl. split; auto. apply arg_last.
Qed.

Lemma In_set (k : string) (v : value) (o : object) : In (k, v) (set k v o).
Proof.
  induction o as [|[k' v'] o IH]; simpl; auto.
  destruct (k' =? k); simpl; auto.
Qed.

End Concealment.

Section ConcealmentOfCalls.

Variable svc : service.
Hypothesis deleted_given : _deletedStatus svc <> "".

Let status := statusField svc.
Let d := _deletedStatus svc.

Lemma guarded_concealStatus (c : object) (b : builder) :
  guarded status d
    (_buildCriteria (fst (concealStatus svc c b))
                    (snd (concealStatus svc c b)) true).
Proof.
  unfold concealStatus. destruct (truthy (get (statusField svc) c)); simpl.
  - eapply guarded_grows; [apply grows_buildCriteria|].
    exists (CStatus (statusField svc) (length (b_args b) + 1)
                    (length (b_args b) + 2)).
    split; simpl.
    + apply in_or_app. right. now left.
    + split; auto.
      replace (length (b_args b) + 2) with (S (length (b_args b) + 1)) by lia.
      simpl. rewrite app_nth2 by lia.
      replace (length (b_args b) + 1 - length (b_args b)) with 1 by lia.
      reflexivity.
  - apply guarded_inject; auto. apply In_set.
Qed.

Lemma conceal_default (opts : query_options) :
  conceal opts <> Some false ->
  match conceal opts with Some c => c | None => true end = true.
Proof. destruct (conceal opts) as [[|]|]; congruence. Qed.

Lemma guarded_find_builder (criteria : option object)
    (opts : query_options) :
  _concealDeadResources svc = true -> conceal opts <> Some false ->
  guarded status d (find_builder svc criteria opts).
Proof.
  intros Hc Ho. unfold find_builder.
  rewrite Hc, (conceal_default opts Ho). cbn [andb].
  destruct criteria as [c|].
  - apply guarded_concealStatus.
  - apply guarded_inject; auto. now left.
Qed.

Lemma find_selects (criteria : option object) (opts : query_options)
    (r : object) :
  _concealDeadResources svc = true -> conceal opts <> Some false ->
  get status r = VStr d ->
  selects (f_query (find svc criteria opts)) r = false.
Proof.
  intros Hc Ho Hr. unfold selects. rewrite find_query_eq.
  cbv zeta. cbn [q_args q_stmt where_of].
  apply guarded_eval with (status := status) (d := d); auto.
  now apply guarded_find_builder.
Qed.

Lemma bulkUpdate_selects (now : Z) (criteria : option object)
    (data : object) (opts : query_options) (r : object) :
  _concealDeadResources svc = true -> conceal opts <> Some false ->
  get status r = VStr d ->
  selects (k_query (bulkUpdate svc now criteria data (Some opts))) r = false.
Proof.
  intros Hc Ho Hr. unfold selects, bulkUpdate.
  rewrite Hc, (conceal_default opts Ho). cbn [andb].
  match goal with
  | |- context [concealStatus svc ?c ?b] =>
      pose proof (guarded_concealStatus c b) as Hg;
      destruct (concealStatus svc c b) as [c1 b1]
  end.
  cbn [k_query q_args q_stmt where_of fst snd] in *.
  rewrite <- (app_nil_r (b_args (_buildCriteria c1 b1 true))).
  now apply guarded_eval with (status := status) (d := d).
Qed.

Lemma bulkDeletePermanently_selects (criteria : option object)
    (opts : query_options) (r : object) :
  _concealDeadResources svc = true -> conceal opts <> Some false ->
  get status r = VStr d ->
  selects (k_query (bulkDeletePermanently svc criteria opts)) r = false.
Proof.
  intros Hc Ho Hr. unfold selects, bulkDeletePermanently.
  rewrite Hc, (conceal_default opts Ho). cbn [andb].
  pose proof (guarded_concealStatus
                (match criteria with Some c => c | None => [] end)
                empty_builder) as Hg.
  unfold concealStatus in Hg.
  destruct (truthy (get (statusField svc) _));
    cbn [k_query q_args q_stmt where_of fst snd] in *;
    match goal with
    | |- eval_where (b_args ?b) _ _ = _ =>
        rewrite <- (app_nil_r (b_args b));
        now apply guarded_eval with (status := status) (d := d)
    end.
Qed.

End ConcealmentOfCalls.

Lemma or_default_given (s : option string) (dflt : string) :
  dflt <> "" -> or_default s dflt <> "".
Proof.
  intros Hd. unfold or_default. destruct s as [x|]; auto.
  destruct (x =? "") eqn:E; auto.
  intros ->. discriminate.
Qed.

Lemma construct_deletedStatus (o : options) (svc : service) :
  construct (Some o) = Ok svc -> _deletedStatus svc <> "".
Proof.
  unfold construct.
  destruct (negb (o_service o)); [discriminate|].
  destruct (negb (given (o_schema o))); [discriminate|].
  destruct (negb (given (o_table o))); [discriminate|].
  intros H. injection H as <-. simpl.
  apply or_default_given. discriminate.
Qed.

(** C1. With concealment on (a constructed service with
    [concealDeadResources] true, and the call's [conceal] not [false]), no row
    whose status column holds the deleted status passes the [WHERE] that
    [find], [count], [bulkUpdate], [bulkDelete] and [bulkDeletePermanently]
    build; with [conceal: false] the [WHERE] is the compile of the caller's
    criteria alone and the criteria are left as they were. *)
Theorem concealment_constrains_status (o : options) (svc : service)
    (now : Z) (criteria : option object) (data : object)
    (opts : query_options) :
  construct (Some o) = Ok svc ->
  _concealDeadResources svc = true ->
  (conceal opts <> Some false ->
   forall r : object,
     get (statusField svc) r = VStr (_deletedStatus svc) ->
     selects (f_query (find svc criteria opts)) r = false
     /\ selects (f_query (count svc criteria opts)) r = false
     /\ selects (k_query (bulkUpdate svc now criteria data (Some opts))) r
        = false
     /\ selects (k_query (bulkDelete svc now criteria opts)) r = false
     /\ selects (k_query (bulkDeletePermanently svc criteria opts)) r = false)
  /\ (conceal opts = Some false ->
      let f := find svc criteria opts in
      let c := count svc criteria opts in
      let u := bulkUpdate svc now criteria data (Some opts) in
      let e := bulkDelete svc now criteria opts in
      let p := bulkDeletePermanently svc criteria opts in
      (where_of (q_stmt (f_query f)) = b_where (plain criteria empty_builder)
       /\ f_criteria f = criteria)
      /\ (where_of (q_stmt (f_query c))
          = b_where (plain criteria empty_builder)
          /\ f_criteria c = criteria)
      /\ (where_of (q_stmt (k_query u))
          = b_where
              (plain criteria
                 (mkBuilder []
                    (setArgs (del (idField svc) (stamp svc now data))) []))
          /\ k_criteria u = criteria)
      /\ (where_of (q_stmt (k_query e))
          = b_where
              (plain criteria
                 (mkBuilder []
                    (setArgs
                       (del (idField svc)
                          (stamp svc now
                             [(statusField svc, VStr (_deletedStatus svc))])))
                    []))
          /\ k_criteria e = criteria)
      /\ (where_of (q_stmt (k_query p)) = b_where (plain criteria empty_builder)
          /\ k_criteria p = criteria)).
Proof.
  intros Hsvc Hon. apply construct_deletedStatus in Hsvc. split.
  - intros Ho r Hr. repeat split.
    + now apply find_selects.
    + unfold count. now apply find_selects.
    + now apply bulkUpdate_selects.
    + unfold bulkDelete. now apply bulkUpdate_selects.
    + now apply bulkDeletePermanently_selects.
  - intros Hoff. cbv zeta.
    unfold count, bulkDelete, bulkUpdate, bulkDeletePermanently, plain.
    rewrite !find_query_eq, !find_criteria_eq. cbv zeta. unfold find_builder.
    cbn [conceal]. rewrite Hoff, Bool.andb_false_r.
    cbn [k_criteria k_query q_stmt where_of].
    destruct criteria; repeat split; reflexivity.
Qed.

Lemma concealment_constrains_status_witness :
  selects (f_query (find crud (Some [("username", VStr "dead")]) no_options))
    [("id", VStr "dead"); ("username", VStr "dead"); ("status", VStr "dead")]
  = false.
Proof.
  refine (proj1
    (proj1
       (concealment_constrains_status
          (mkOptions true (Some "crud_test") (Some "user") None None None None
             None None None)
          crud 0 (Some [("username", VStr "dead")]) [] no_options
          eq_refl eq_refl)
       _ _ _)).
  - discriminate.
  - reflexivity.
Defined.

(** ** What [find] does to its arguments *)

Lemma del_changes (k : string) (o : object) :
  truthy (get k o) = true -> del k o <> o.
Proof.
  intros Ht Heq. pose proof (get_del_same k o) as Hg.
  rewrite Heq in Hg. rewrite Hg in Ht. discriminate.
Qed.

Lemma set_object_changes (k : string) (es o : object) :
  truthy (get k o) = false -> set k (VObj es) o <> o.
Proof.
  intros Hf Heq. pose proof (get_set_same k (VObj es) o) as Hg.
  rewrite Heq in Hg. rewrite Hg in Hf. discriminate.
Qed.

(** C9. [find] strips [skip], [take], [fields], [sort], [conceal] and [mode]
    from the caller's options (so options holding any of them are changed),
    and when the concealment merge runs on a caller's criteria object it
    deletes a truthy status entry from it or else writes the
    [{ $ne: deletedStatus }] entry into it: the object is not what it was. *)
Theorem find_mutates_arguments (svc : service) (criteria : option object)
    (opts : query_options) :
  let r := find svc criteria opts in
  f_options r = mkQueryOptions (client opts) None None None None None None
  /\ ((skip opts <> None \/ take opts <> None \/ fields opts <> None
       \/ sort opts <> None \/ conceal opts <> None \/ mode opts <> None) ->
      f_options r <> opts)
  /\ (forall c : object,
        criteria = Some c ->
        _concealDeadResources svc = true ->
        conceal opts <> Some false ->
        f_criteria r
        = Some (if truthy (get (statusField svc) c)
                then del (statusField svc) c
                else set (statusField svc)
                         (VObj [("$ne", VStr (_deletedStatus svc))]) c)
        /\ f_criteria r <> Some c).
Proof.
  cbv zeta. rewrite find_options_eq, find_criteria_eq.
  split; [reflexivity|]. split.
  - intros H Heq. rewrite <- Heq in H. simpl in H.
    destruct H as [H|[H|[H|[H|[H|H]]]]]; now apply H.
  - intros c -> Hon Ho. rewrite Hon, (conceal_default opts Ho). cbn [andb].
    unfold concealStatus.
    destruct (truthy (get (statusField svc) c)) eqn:E; cbn [fst];
      (split; [reflexivity|]); intros Heq; injection Heq as Heq.
    + now apply del_changes in Heq.
    + now apply set_object_changes in Heq.
Qed.

Lemma find_mutates_arguments_witness :
  f_options (find crud (Some [("username", VStr "a")]) page_two) <> page_two
  /\ f_criteria (find crud (Some [("username", VStr "a")]) page_two)
     = Some [("username", VStr "a"); ("status", VObj [("$ne", VStr "dead")])]
  /\ f_criteria (find crud (Some [("username", VStr "a")]) page_two)
     <> Some [("username", VStr "a")].
Proof.
  pose proof
    (find_mutates_arguments crud (Some [("username", VStr "a")]) page_two)
    as H.
  cbv zeta in H. destruct H as (_ & Ho & Hc).
  split.
  - apply Ho. left. discriminate.
  - apply (Hc [("username", VStr "a")] eq_refl eq_refl). discriminate.
Defined.

(** ** update: what happens to the row, and when it is rejected *)

Section Update.

Variable svc : service.

Lemma update_doc (now : Z) (doc : object) (data : option object)
    (opts : query_options) :
  fst (update svc now doc data opts)
  = stamp svc now (_applyUpdates svc doc data).
Proof.
  unfold update.
  destruct (get (idField svc) (stamp svc now (_applyUpdates svc doc data)));
    reflexivity.
Qed.

(** [update] rejects exactly when the id is missing after the patch and
    the stamp have been applied. *)
Lemma update_rejected_iff (now : Z) (doc : object) (data : option object)
    (opts : query_options) :
  (exists report error,
      snd (update svc now doc data opts) = Rejected report error)
  <-> get (idField svc) (stamp svc now (_applyUpdates svc doc data))
      = VUndefined.
Proof.
  unfold update.
  destruct (get (idField svc) (stamp svc now (_applyUpdates svc doc data)));
    simpl; split; intros H; try discriminate;
    try (destruct H as (r & e & H); discriminate);
    eauto.
Qed.

Lemma applyUpdates_fold (doc d : object) :
  _applyUpdates svc doc (Some d)
  = fold_left (applyKey d) (_modifiableKeys svc) doc.
Proof. reflexivity. Qed.

Lemma fold_applyKey_keeps (d : object) (k : string) (ks : list string) :
  forall acc,
    get k acc = get k d ->
    get k (fold_left (applyKey d) ks acc) = get k d.
Proof.
  induction ks as [|p ks IH]; intros acc Hacc; simpl; auto.
  apply IH. unfold applyKey. destruct (truthy (get p d)); auto.
  destruct (String.eqb_spec p k) as [->|Hne].
  - apply get_set_same.
  - now rewrite get_set_other.
Qed.

Lemma fold_applyKey_sets (d : object) (k : string) (ks : list string) :
  In k ks -> truthy (get k d) = true ->
  forall acc, get k (fold_left (applyKey d) ks acc) = get k d.
Proof.
  intros Hin Ht. induction ks as [|p ks IH]; [contradiction|].
  intros acc. simpl. destruct (String.eqb_spec p k) as [->|Hne].
  - apply fold_applyKey_keeps. unfold applyKey. rewrite Ht.
    apply get_set_same.
  - apply IH. destruct Hin; [contradiction | assumption].
Qed.

Lemma fold_applyKey_skips (d : object) (k : string) (ks : list string) :
  (In k ks -> truthy (get k d) = false) ->
  forall acc, get k (fold_left (applyKey d) ks acc) = get k acc.
Proof.
  induction ks as [|p ks IH]; intros Hk acc; simpl; auto.
  rewrite IH by (intros Hin; apply Hk; now right).
  unfold applyKey. destruct (truthy (get p d)) eqn:E; auto.
  apply get_set_other. intros ->.
  rewrite Hk in E by now left. discriminate.
Qed.

Lemma get_stamp_other (now : Z) (k : string) (o : object) :
  updatedField svc <> Some k -> get k (stamp svc now o) = get k o.
Proof.
  unfold stamp. destruct (updatedField svc) as [f|]; auto.
  intros Hne. destruct (f =? ""); auto.
  apply get_set_other. congruence.
Qed.

Lemma get_stamp_same (now : Z) (f : string) (o : object) :
  updatedField svc = Some f -> f <> "" ->
  get f (stamp svc now o) = VDate now.
Proof.
  unfold stamp. intros -> Hf.
  destruct (String.eqb_spec f ""); [contradiction|].
  apply get_set_same.
Qed.

End Update.

(** C10. When [update] rejects for a missing id, the caller's row already
    carries the allow-listed patch fields and the [updatedField] stamp: the
    row is the patched and stamped one, and no query was issued. *)
Theorem update_rejects_after_mutating (svc : service) (now : Z)
    (doc : object) (data : option object) (opts : query_options)
    (report error : string) :
  snd (update svc now doc data opts) = Rejected report error ->
  let doc' := fst (update svc now doc data opts) in
  doc' = stamp svc now (_applyUpdates svc doc data)
  /\ get (idField svc) doc' = VUndefined
  /\ (forall f, updatedField svc = Some f -> f <> "" ->
                get f doc' = VDate now)
  /\ (forall d k,
         data = Some d -> In k (_modifiableKeys svc) ->
         truthy (get k d) = true -> updatedField svc <> Some k ->
         get k doc' = get k d)
  /\ queries (snd (update svc now doc data opts)) = [].
Proof.
  intros Hrej. cbv zeta. rewrite update_doc, Hrej. repeat split.
  - apply update_rejected_iff with (opts := opts). eauto.
  - intros f Hf Hne. now apply get_stamp_same.
  - intros d k -> Hin Ht Hne.
    rewrite get_stamp_other by assumption.
    rewrite applyUpdates_fold. now apply fold_applyKey_sets.
Qed.

Lemma update_rejects_after_mutating_witness :
  fst (update named_crud 7 [("username", VStr "bogus")]
         (Some [("first_name", VStr "unit"); ("email", VStr "x")]) no_options)
  = [("username", VStr "bogus"); ("first_name", VStr "unit");
     ("updated", VDate 7)]
  /\ queries
       (snd (update named_crud 7 [("username", VStr "bogus")]
               (Some [("first_name", VStr "unit"); ("email", VStr "x")])
               no_options))
     = [].
Proof.
  destruct
    (update_rejects_after_mutating named_crud
       7 [("username", VStr "bogus")]
       (Some [("first_name", VStr "unit"); ("email", VStr "x")]) no_options
       "PostgresCrudService: Cannot update row if id field not provided!"
       "PostgresCrudService: Cannot update row if id field not provided"
       eq_refl)
    as (Hdoc & _ & _ & _ & Hq).
  split; [exact Hdoc | exact Hq].
Defined.

(** ** A row without its id *)

(** A service whose modifiable keys hold the id column: the patch supplies
    the id the row lacks, and [update] goes to the database. *)
Lemma update_without_id_can_issue :
  get (idField keyed_crud) [("username", VStr "bogus")] = VUndefined
  /\ snd (update keyed_crud 7 [("username", VStr "bogus")]
             (Some [("id", VNum 7)]) no_options)
     = Issued
         (mkQuery
            (Update "crud_test" "user" [("username", 1); ("updated", 2)]
                    [CCmp "id" Eq 3] true)
            [VStr "bogus"; VDate 7; VNum 7] None)
  /\ ~ (forall (s : service) (now : Z) (row : object) (data : option object)
               (opts : query_options),
           get (idField s) row = VUndefined ->
           queries (snd (update s now row data opts)) = []).
Proof.
  repeat split.
  intros H.
  specialize
    (H keyed_crud 7%Z [("username", VStr "bogus")] (Some [("id", VNum 7)])
       no_options eq_refl).
  discriminate H.
Qed.

(** C8, amended. A row without the id field makes [deletePermanently] reject
    at once with its error and no query; it makes [update] do the same as long
    as the id is not put on the row by the call itself, through an
    allow-listed patch key or as the [updatedField]. *)
Theorem missing_id_rejected_locally (svc : service) (now : Z) (doc : object)
    (data : option object) (opts : query_options) :
  get (idField svc) doc = VUndefined ->
  (exists report,
      deletePermanently svc doc opts = Rejected report delete_error)
  /\ queries (deletePermanently svc doc opts) = []
  /\ ((forall d, data = Some d -> In (idField svc) (_modifiableKeys svc) ->
                 truthy (get (idField svc) d) = false) ->
      updatedField svc <> Some (idField svc) ->
      (exists report,
          snd (update svc now doc data opts) = Rejected report update_error)
      /\ queries (snd (update svc now doc data opts)) = []).
Proof.
  intros Hid. unfold deletePermanently. rewrite Hid.
  split; [eauto|]. split; [reflexivity|].
  intros Hpatch Hstamp.
  assert (Hmiss :
    get (idField svc) (stamp svc now (_applyUpdates svc doc data))
    = VUndefined).
  { rewrite get_stamp_other by assumption.
    destruct data as [d|]; [|exact Hid].
    rewrite applyUpdates_fold, fold_applyKey_skips; auto. }
  unfold update. rewrite Hmiss. simpl. eauto.
Qed.

Lemma missing_id_rejected_locally_witness :
  queries (deletePermanently crud [("username", VStr "bogus")] no_options) = []
  /\ queries (snd (update crud 7 [("username", VStr "bogus")] None no_options))
     = [].
Proof.
  destruct
    (missing_id_rejected_locally crud 7 [("username", VStr "bogus")] None
       no_options eq_refl)
    as (_ & Hd & Hu).
  split; [exact Hd|].
  apply Hu.
  - discriminate.
  - discriminate.
Defined.

(** ** The soft-delete merge on a status entry *)

Section StatusMerge.

Variable svc : service.

(** A truthy status entry [X]: the pair [status = X AND status != deleted]
    is pushed with its two arguments, and the entry leaves the criteria. *)
Lemma concealStatus_truthy (c : object) (b : builder) :
  truthy (get (statusField svc) c) = true ->
  concealStatus svc c b
  = (del (statusField svc) c,
     mkBuilder
       (b_where b ++ [CStatus (statusField svc) (length (b_args b) + 1)
                              (length (b_args b) + 2)])
       (b_args b ++ [get (statusField svc) c; VStr (_deletedStatus svc)])
       (b_reports b)).
Proof. unfold concealStatus. now intros ->. Qed.

(** No status entry, or a falsy one: the entry becomes
    [{ $ne: deletedStatus }] and nothing is pushed yet. *)
Lemma concealStatus_falsy (c : object) (b : builder) :
  truthy (get (statusField svc) c) = false ->
  concealStatus svc c b
  = (set (statusField svc) (VObj [("$ne", VStr (_deletedStatus svc))]) c,
     b).
Proof. unfold concealStatus. now intros ->. Qed.

End StatusMerge.

(** C4, at [find({ status: '' })] with concealment on: the caller's
    constraint on the status column is overwritten by the injected
    [{ $ne: 'dead' }], and the statement only asks for [status != $1]; with
    [conceal: false] the same criteria compile to [status = $1] with the
    caller's value. *)
Theorem falsy_status_filter_is_dropped :
  f_criteria (find crud (Some [("status", VStr "")]) no_options)
  = Some [("status", VObj [("$ne", VStr "dead")])]
  /\ f_query (find crud (Some [("status", VStr "")]) no_options)
     = mkQuery
         (Select PStar "crud_test" "user" [CCmp "status" Ne 1] None None
                 LimitNone)
         [VStr "dead"] None
  /\ f_query
       (find crud (Some [("status", VStr "")])
          (mkQueryOptions None None None None None (Some false) None))
     = mkQuery
         (Select PStar "crud_test" "user" [CCmp "status" Eq 1] None None
                 LimitNone)
         [VStr ""] None
  /\ selects (f_query (find crud (Some [("status", VStr "")]) no_options))
       [("id", VStr "a"); ("status", VStr "active")] = true.
Proof. repeat split. Qed.

(** ** Range operators *)

Section RangeOperators.

(** A truthy operand: one clause with the next placeholder, one argument,
    no diagnostic. *)
Lemma range_operator_truthy (field : string) (op : cmp) (v : value)
    (equality : bool) (b : builder) :
  is_range op = true -> truthy v = true ->
  buildField field (VObj [(range_key op, v)]) equality b
  = push (CCmp field op (next b)) [v] b.
Proof.
  intros Hop Hv. rewrite buildField_object.
  destruct op; try discriminate; unfold ne_step, operator; simpl;
    rewrite Hv; unfold finish; simpl; rewrite length_app; simpl;
    destruct (Nat.eqb_spec (length (b_where b)) (length (b_where b) + 1));
    (lia || reflexivity).
Qed.

(** A falsy operand: nothing is appended, and the field is reported as
    carrying no modifier. *)
Lemma range_operator_falsy (field : string) (op : cmp) (v : value)
    (equality : bool) (b : builder) :
  is_range op = true -> truthy v = false ->
  buildField field (VObj [(range_key op, v)]) equality b
  = mkBuilder (b_where b) (b_args b)
      (b_reports b ++ [(field, VObj [(range_key op, v)])]).
Proof.
  intros Hop Hv. rewrite buildField_object.
  destruct op; try discriminate; unfold ne_step, operator; simpl;
    rewrite Hv; unfold finish; simpl; now rewrite Nat.eqb_refl.
Qed.

End RangeOperators.

(** C5, at the operand [0]: [{ age: { $gt: 0 } }], and the same with [$gte],
    [$lt] and [$lte], appends no clause and no argument; the field is
    reported as having no modifier, and [find] selects a row whose [age] is
    below zero. *)
Theorem range_operator_zero_is_dropped :
  buildField "age" (VObj [("$gt", VNum 0)]) true empty_builder
  = mkBuilder [] [] [("age", VObj [("$gt", VNum 0)])]
  /\ buildField "age" (VObj [("$gte", VNum 0)]) true empty_builder
     = mkBuilder [] [] [("age", VObj [("$gte", VNum 0)])]
  /\ buildField "age" (VObj [("$lt", VNum 0)]) true empty_builder
     = mkBuilder [] [] [("age", VObj [("$lt", VNum 0)])]
  /\ buildField "age" (VObj [("$lte", VNum 0)]) true empty_builder
     = mkBuilder [] [] [("age", VObj [("$lte", VNum 0)])]
  /\ f_query
       (find crud (Some [("age", VObj [("$gt", VNum 0)])])
          (mkQueryOptions None None None None None (Some false) None))
     = mkQuery (Select PStar "crud_test" "user" [] None None LimitNone) [] None
  /\ selects
       (f_query
          (find crud (Some [("age", VObj [("$gt", VNum 0)])])
             (mkQueryOptions None None None None None (Some false) None)))
       [("id", VStr "a"); ("age", VNum (-5))] = true
  /\ buildField "age" (VObj [("$gt", VNum 1)]) true empty_builder
     = mkBuilder [CCmp "age" Gt 1] [VNum 1] [].
Proof. repeat split. Qed.

(** ** Stamping the updated field *)

Lemma construct_updatedField (o : options) (svc : service) :
  construct (Some o) = Ok svc ->
  exists f, updatedField svc = Some f /\ f <> "".
Proof.
  unfold construct.
  destruct (negb (o_service o)); [discriminate|].
  destruct (negb (given (o_schema o))); [discriminate|].
  destruct (negb (given (o_table o))); [discriminate|].
  intros H. injection H as <-. simpl. eexists. split; [reflexivity|].
  apply or_default_given. discriminate.
Qed.

(** With the property reset to [null] after construction, as the tests do,
    nothing is stamped. *)
Lemma stamp_disabled (svc : service) (now : Z) (o : object) :
  updatedField svc = None -> stamp svc now o = o.
Proof. unfold stamp. now intros ->. Qed.

(** The stamp is part of the row before the statement is built: it is among
    the [SET] columns, bound to the current time. *)
Lemma update_sets_stamp (svc : service) (now : Z) (doc : object)
    (data : option object) (opts : query_options) (f : string) (q : query) :
  updatedField svc = Some f -> f <> "" ->
  snd (update svc now doc data opts) = Issued q ->
  get f (fst (update svc now doc data opts)) = VDate now.
Proof.
  intros Hf Hne _. rewrite update_doc. now apply get_stamp_same.
Qed.

(** C6, at a service constructed with [updatedField: null]: the constructor
    falls back to ["updated"], so [update] and [bulkUpdate] still stamp it. *)
Theorem null_updatedField_still_stamps :
  o_updatedField null_updatedField_options = None
  /\ construct (Some null_updatedField_options) = Ok crud
  /\ update crud 99 [("id", VStr "b"); ("first_name", VStr "unit")] None
       no_options
     = ([("id", VStr "b"); ("first_name", VStr "unit"); ("updated", VDate 99)],
        Issued
          (mkQuery
             (Update "crud_test" "user" [("first_name", 1); ("updated", 2)]
                     [CCmp "id" Eq 3] true)
             [VStr "unit"; VDate 99; VStr "b"] None))
  /\ k_data
       (bulkUpdate crud 99 (Some [("id", VArr [VStr "a"; VStr "b"])])
          [("first_name", VStr "bulk")] None)
     = [("first_name", VStr "bulk"); ("updated", VDate 99)]
  /\ q_stmt
       (k_query
          (bulkUpdate crud 99 (Some [("id", VArr [VStr "a"; VStr "b"])])
             [("first_name", VStr "bulk")] None))
     = Update "crud_test" "user" [("first_name", 1); ("updated", 2)]
              [CIn "id" false [3; 4]; CCmp "status" Ne 5] false.
Proof. repeat split. Qed.

(** ** Projection *)

Lemma allowedFields_spec (fields_ : object) (c : string) :
  let fields1 :=
    if defined (get "id" fields_) then fields_ else set "id" (VNum 1) fields_ in
  In c (allowedFields fields_)
  <-> In c (keys fields1) /\ truthy (get c fields1) = true.
Proof. cbv zeta. unfold allowedFields. apply filter_In. Qed.

(** C7, at a service whose id column is [uid]: [find] with
    [fields: { username: 1 }] projects [username] and a column named [id];
    the configured id column is not among the projected columns. *)
Theorem projection_forces_literal_id :
  idField uid_crud = "uid"
  /\ q_stmt
       (f_query
          (find uid_crud (Some [])
             (mkQueryOptions None None None (Some [("username", VNum 1)]) None
                None None)))
     = Select (PColumns ["username"; "id"]) "crud_test" "user"
              [CCmp "status" Ne 1] None None LimitNone
  /\ ~ In (idField uid_crud) (allowedFields [("username", VNum 1)]).
Proof.
  repeat split. simpl. intros [H|[H|[]]]; discriminate.
Qed.

(** ** delete, then retrieve *)

Section SetClause.

(** Every [SET] entry of [o] is bound to the value [o] holds for its
    column. *)
Lemma sets_bound (f : string -> value) (ks : list string) :
  forall pre extra,
    Forall (fun s => arg (pre ++ map f ks ++ extra) (snd s) = f (fst s))
           (combine ks (seq (length pre + 1) (length ks))).
Proof.
  induction ks as [|k ks IH]; intros pre extra; simpl; constructor.
  - simpl. rewrite Nat.add_1_r. simpl.
    rewrite app_nth2 by lia. now rewrite Nat.sub_diag.
  - specialize (IH (pre ++ [f k]) extra).
    rewrite length_app, <- app_assoc in IH. simpl in IH.
    replace (length pre + 1 + 1) with (S (length pre + 1)) in IH by lia.
    exact IH.
Qed.

Lemma setsOf_bound (o : object) (extra : list value) :
  Forall (fun s => arg (setArgs o ++ extra) (snd s) = get (fst s) o)
         (setsOf o).
Proof.
  unfold setsOf, setArgs.
  pose proof (sets_bound (fun f => get f o) (keys o) [] extra) as H.
  simpl in H. unfold keys in *. now rewrite length_map in H.
Qed.

Lemma setsOf_keys (o : object) : map fst (setsOf o) = keys o.
Proof.
  unfold setsOf, keys. generalize 1.
  induction o as [|[k v] o IH]; intros n; simpl; auto.
  now rewrite IH.
Qed.

Variables (args : list value) (o : object).

Lemma apply_sets_keeps (k : string) (sets : list (string * nat)) :
  Forall (fun s => arg args (snd s) = get (fst s) o) sets ->
  forall r, get k r = get k o -> get k (apply_sets args sets r) = get k o.
Proof.
  unfold apply_sets.
  induction 1 as [|[k' p] sets Hs _ IH]; intros r Hr; simpl; auto.
  apply IH. simpl in Hs. destruct (String.eqb_spec k' k) as [->|Hne].
  - now rewrite get_set_same.
  - now rewrite get_set_other.
Qed.

Lemma apply_sets_in (k : string) (sets : list (string * nat)) :
  Forall (fun s => arg args (snd s) = get (fst s) o) sets ->
  In k (map fst sets) ->
  forall r, get k (apply_sets args sets r) = get k o.
Proof.
  induction 1 as [|[k' p] sets Hs Hrest IH]; intros Hin r;
    [contradiction|].
  simpl in Hs. destruct (String.eqb_spec k' k) as [->|Hne].
  - unfold apply_sets. simpl.
    apply (apply_sets_keeps k sets Hrest). now rewrite get_set_same.
  - destruct Hin as [Heq|Hin]; [simpl in Heq; contradiction|].
    unfold apply_sets. simpl. now apply IH.
Qed.

Lemma apply_sets_out (k : string) (sets : list (string * nat)) :
  ~ In k (map fst sets) ->
  forall r, get k (apply_sets args sets r) = get k r.
Proof.
  unfold apply_sets.
  induction sets as [|[k' p] sets IH]; intros Hout r; simpl; auto.
  rewrite IH by (intros Hin; apply Hout; now right).
  apply get_set_other. intros ->. apply Hout. now left.
Qed.

End SetClause.

Lemma get_in_keys (k : string) (o : object) :
  get k o <> VUndefined -> In k (keys o).
Proof.
  induction o as [|[k' v] o IH]; simpl; [congruence|].
  destruct (String.eqb_spec k' k); auto.
Qed.

Lemma del_not_in_keys (k : string) (o : object) : ~ In k (keys (del k o)).
Proof.
  induction o as [|[k' v] o IH]; simpl; auto.
  destruct (String.eqb_spec k' k); simpl; auto.
  intros [H|H]; auto.
Qed.

Lemma filter_none {A : Type} (f : A -> bool) (l : list A) :
  (forall x, In x l -> f x = false) -> filter f l = [].
Proof.
  induction l as [|x l IH]; intros H; simpl; auto.
  rewrite (H x) by now left. apply IH. intros y Hy. apply H. now right.
Qed.

Lemma filter_map_commute {A : Type} (f : A -> bool) (g : A -> A)
    (l : list A) :
  (forall x, f (if f x then g x else x) = f x) ->
  filter f (map (fun x => if f x then g x else x) l) = map g (filter f l).
Proof.
  intros H. induction l as [|x l IH]; simpl; auto.
  rewrite H. destruct (f x); simpl; now rewrite IH.
Qed.

Lemma sql_eq_null (a : value) : sql_eq a VNull = false.
Proof. now destruct a. Qed.

Section DeleteThenRetrieve.

Variables (svc : service) (now : Z) (doc : object) (opts : query_options).

Hypothesis id_not_status : idField svc <> statusField svc.
Hypothesis stamp_not_id : updatedField svc <> Some (idField svc).
Hypothesis stamp_not_status : updatedField svc <> Some (statusField svc).
Hypothesis has_id : get (idField svc) doc <> VUndefined.

Let d := _deletedStatus svc.
Let idv := get (idField svc) doc.
Let doc2 := stamp svc now (set (statusField svc) (VStr d) doc).
Let setData := del (idField svc) doc2.
Let uargs := setArgs setData ++ [idv].
Let hit (r : object) : bool := sql_eq (get (idField svc) r) idv.
Let upd (r : object) : object := apply_sets uargs (setsOf setData) r.

Lemma delete_call :
  snd (delete svc now doc opts)
  = Issued
      (mkQuery
         (Update (schema svc) (table svc) (setsOf setData)
                 [CCmp (idField svc) Eq (length (setArgs setData) + 1)] true)
         uargs (client opts)).
Proof.
  assert (Hid : get (idField svc) doc2 = get (idField svc) doc).
  { unfold doc2. rewrite get_stamp_other by assumption.
    apply get_set_other. congruence. }
  unfold delete, update. cbn [_applyUpdates]. fold d. fold doc2.
  unfold uargs, setData, idv. rewrite Hid.
  destruct (get (idField svc) doc) eqn:E; [contradiction|reflexivity..].
Qed.

Lemma delete_exec (t : store) :
  run_delete svc now t doc opts
  = (map (fun r => if hit r then upd r else r) t,
     Ok (first_row
           (mkResult (map upd (filter hit t))
                     (length (map upd (filter hit t)))))).
Proof.
  unfold run_delete. rewrite delete_call. unfold settle, exec.
  cbn [q_stmt q_args].
  assert (Hw : forall r,
    eval_where uargs
      [CCmp (idField svc) Eq (length (setArgs setData) + 1)] r = hit r).
  { intros r. unfold eval_where. simpl forallb. unfold eval_clause.
    unfold uargs at 1. rewrite arg_last. unfold hit. simpl.
    apply andb_true_r. }
  f_equal.
  - apply map_ext. intros r. now rewrite Hw.
  - do 2 f_equal; rewrite (filter_ext _ _ Hw); reflexivity.
Qed.

Lemma upd_status (r : object) :
  get (statusField svc) (upd r) = VStr d.
Proof.
  assert (Hs : get (statusField svc) setData = VStr d).
  { unfold setData. rewrite get_del_other by assumption.
    unfold doc2. rewrite get_stamp_other by assumption.
    apply get_set_same. }
  unfold upd, uargs. rewrite <- Hs.
  apply apply_sets_in.
  - apply setsOf_bound.
  - rewrite setsOf_keys. apply get_in_keys. rewrite Hs. discriminate.
Qed.

Lemma upd_id (r : object) :
  get (idField svc) (upd r) = get (idField svc) r.
Proof.
  unfold upd. apply apply_sets_out.
  rewrite setsOf_keys. apply del_not_in_keys.
Qed.

Lemma hit_after (r : object) : hit (if hit r then upd r else r) = hit r.
Proof.
  destruct (hit r) eqn:E; auto. unfold hit in *. now rewrite upd_id.
Qed.

Variable t : store.

Let t' := map (fun r => if hit r then upd r else r) t.

Lemma retrieve_concealed (opts' : query_options) :
  _concealDeadResources svc = true ->
  run_retrieve svc t' idv opts' = (t', Ok VNull).
Proof.
  intros Hc. unfold run_retrieve, retrieve. rewrite Hc.
  assert (Hnone :
    filter
      (eval_where [idv; VStr d]
         [CCmp (idField svc) Eq 1; CCmp (statusField svc) Ne 2]) t' = []).
  { apply filter_none. intros r' Hin. unfold t' in Hin.
    apply in_map_iff in Hin. destruct Hin as (r & <- & _).
    unfold eval_where. simpl.
    destruct (hit r) eqn:E.
    - rewrite upd_status. simpl. rewrite String.eqb_refl. simpl.
      now rewrite andb_false_r.
    - unfold hit in E. now rewrite E. }
  destruct idv eqn:E; try reflexivity;
    unfold settle, exec; cbn [q_stmt q_args app]; fold d;
    rewrite Hnone; reflexivity.
Qed.

Lemma retrieve_unconcealed (opts' : query_options) (r0 : object) :
  In r0 t -> hit r0 = true ->
  exists r',
    run_retrieve (with_conceal false svc) t' idv opts' = (t', Ok (VObj r'))
    /\ get (statusField svc) r' = VStr d
    /\ hit r' = true.
Proof.
  intros Hin Hhit.
  assert (Hsome :
    filter (eval_where [idv] [CCmp (idField svc) Eq 1]) t'
    = map upd (filter hit t)).
  { unfold t'. rewrite <- (filter_map_commute hit upd t hit_after).
    apply filter_ext. intros r. unfold eval_where. simpl.
    unfold hit. now rewrite andb_true_r. }
  assert (Hne : exists r1 rest, filter hit t = r1 :: rest /\ hit r1 = true).
  { destruct (filter hit t) as [|r1 rest] eqn:E.
    - assert (Hf : In r0 (filter hit t)) by (apply filter_In; auto).
      rewrite E in Hf. contradiction.
    - exists r1, rest. split; auto.
      assert (Hf : In r1 (filter hit t)) by (rewrite E; now left).
      now apply filter_In in Hf. }
  destruct Hne as (r1 & rest & Hfl & Hr1).
  exists (upd r1). split; [|split].
  - unfold run_retrieve, retrieve. cbn [with_conceal _concealDeadResources
      idField statusField schema table _deletedStatus].
    unfold hit in Hhit.
    destruct idv eqn:E;
      try (rewrite sql_eq_null in Hhit; discriminate);
      try (now destruct (get (idField svc) r0));
      unfold settle, exec; cbn [q_stmt q_args];
      rewrite Hsome, Hfl; reflexivity.
  - apply upd_status.
  - unfold hit. now rewrite upd_id.
Qed.

End DeleteThenRetrieve.

(** [retrieve] reads no [conceal] option: after [delete], a service that
    conceals answers [null] also to [retrieve(id, { conceal: false })]. *)
Lemma retrieve_ignores_conceal_option :
  snd (run_retrieve crud
         (fst (run_delete crud 7 one_user [("id", VStr "c")] no_options))
         (VStr "c") conceal_off)
  = Ok VNull.
Proof. reflexivity. Qed.

(** C2, amended. When [delete(row)] completes (the id, status and updated
    columns being three columns), it has removed no row of the table.
    Afterwards [retrieve(id)] on a service that conceals dead resources gives
    [null], whatever options it is called with, [conceal: false] included;
    on the service with [concealDeadResources] off it gives the stored row,
    its status set to the deleted status. *)
Theorem delete_conceals_and_keeps_row (svc : service) (now : Z)
    (t t' : store) (doc : object) (opts opts' : query_options) (v : value) :
  idField svc <> statusField svc ->
  updatedField svc <> Some (idField svc) ->
  updatedField svc <> Some (statusField svc) ->
  run_delete svc now t doc opts = (t', Ok v) ->
  let id := get (idField svc) doc in
  length t' = length t
  /\ (_concealDeadResources svc = true ->
      run_retrieve svc t' id opts' = (t', Ok VNull))
  /\ (forall r0,
         In r0 t -> sql_eq (get (idField svc) r0) id = true ->
         exists r',
           run_retrieve (with_conceal false svc) t' id opts'
           = (t', Ok (VObj r'))
           /\ get (statusField svc) r' = VStr (_deletedStatus svc)
           /\ sql_eq (get (idField svc) r') id = true).
Proof.
  intros Hid Hsi Hss Hrun. cbv zeta.
  assert (Hhas : get (idField svc) doc <> VUndefined).
  { intros E. unfold run_delete, delete, update in Hrun.
    cbn [_applyUpdates] in Hrun.
    rewrite get_stamp_other in Hrun by assumption.
    rewrite get_set_other in Hrun by congruence.
    rewrite E in Hrun. discriminate Hrun. }
  rewrite (delete_exec svc now doc opts Hid Hsi Hhas t) in Hrun.
  injection Hrun as <- _.
  split; [apply length_map|]. split.
  - intros Hc. now apply retrieve_concealed.
  - intros r0 Hin Hhit. now apply retrieve_unconcealed with (r0 := r0).
Qed.

Lemma delete_conceals_and_keeps_row_witness :
  run_retrieve crud
    (fst (run_delete crud 7 one_user [("id", VStr "c")] no_options))
    (VStr "c") conceal_off
  = (fst (run_delete crud 7 one_user [("id", VStr "c")] no_options), Ok VNull)
  /\ exists r',
       run_retrieve (with_conceal false crud)
         (fst (run_delete crud 7 one_user [("id", VStr "c")] no_options))
         (VStr "c") no_options
       = (fst (run_delete crud 7 one_user [("id", VStr "c")] no_options),
          Ok (VObj r'))
       /\ get "status" r' = VStr "dead"
       /\ sql_eq (get "id" r') (VStr "c") = true.
Proof.
  assert (Hid : idField crud <> statusField crud) by discriminate.
  assert (Hsi : updatedField crud <> Some (idField crud)) by discriminate.
  assert (Hss : updatedField crud <> Some (statusField crud)) by discriminate.
  assert (Hrun :
    run_delete crud 7 one_user [("id", VStr "c")] no_options
    = (fst (run_delete crud 7 one_user [("id", VStr "c")] no_options),
       Ok (VObj [("id", VStr "c"); ("username", VStr "c");
                 ("status", VStr "dead"); ("updated", VDate 7)])))
    by reflexivity.
  split.
  - exact (proj1 (proj2
      (delete_conceals_and_keeps_row crud 7 one_user _ [("id", VStr "c")]
         no_options conceal_off _ Hid Hsi Hss Hrun)) eq_refl).
  - exact (proj2 (proj2
      (delete_conceals_and_keeps_row crud 7 one_user _ [("id", VStr "c")]
         no_options no_options _ Hid Hsi Hss Hrun))
      [("id", VStr "c"); ("username", VStr "c"); ("status", VStr "active")]
      (or_introl eq_refl) eq_refl).
Defined.

(** ** The compiled clauses mean what the criteria ask *)

Section CompilerMeaning.

Lemma arg_middle (pre : list value) (v : value) (post : list value) :
  arg (pre ++ v :: post) (length pre + 1) = v.
Proof.
  rewrite Nat.add_1_r. simpl. rewrite app_nth2 by lia.
  now rewrite Nat.sub_diag.
Qed.

Lemma args_of_seq (pre items post : list value) :
  map (arg (pre ++ items ++ post)) (seq (length pre + 1) (length items))
  = items.
Proof.
  revert pre. induction items as [|x items IH]; intros pre; simpl; auto.
  f_equal.
  - apply arg_middle.
  - specialize (IH (pre ++ [x])).
    rewrite length_app, <- app_assoc in IH. simpl in IH.
    replace (length pre + 1 + 1) with (S (length pre + 1)) in IH by lia.
    exact IH.
Qed.

Lemma existsb_map {A B : Type} (f : B -> bool) (g : A -> B) (l : list A) :
  existsb f (map g l) = existsb (fun x => f (g x)) l.
Proof. induction l; simpl; congruence. Qed.

Lemma forallb_map {A B : Type} (f : B -> bool) (g : A -> B) (l : list A) :
  forallb f (map g l) = forallb (fun x => f (g x)) l.
Proof. induction l; simpl; congruence. Qed.

Lemma means_refl (b : builder) : means b b (fun _ => true).
Proof.
  exists [], []. rewrite !app_nil_r. repeat split.
Qed.

Lemma means_trans (b1 b2 b3 : builder) (m1 m2 : object -> bool) :
  means b1 b2 m1 -> means b2 b3 m2 ->
  means b1 b3 (fun r => m1 r && m2 r).
Proof.
  intros (w1 & a1 & Hw1 & Ha1 & Hm1) (w2 & a2 & Hw2 & Ha2 & Hm2).
  exists (w1 ++ w2), (a1 ++ a2). repeat split.
  - now rewrite Hw2, Hw1, app_assoc.
  - now rewrite Ha2, Ha1, app_assoc.
  - intros extra r. unfold eval_where in *. rewrite forallb_app.
    rewrite <- app_assoc, Hm1.
    specialize (Hm2 extra r). rewrite Ha1, <- !app_assoc in Hm2.
    now rewrite Hm2.
Qed.

Lemma means_ext (b b' : builder) (m m' : object -> bool) :
  (forall r, m r = m' r) -> means b b' m -> means b b' m'.
Proof.
  intros Hext (w & a & Hw & Ha & Hm). exists w, a. repeat split; auto.
  intros extra r. now rewrite Hm.
Qed.

Lemma means_push_cmp (field : string) (op : cmp) (v : value) (b : builder) :
  means b (push (CCmp field op (next b)) [v] b)
        (fun r => sql_cmp op (get field r) v).
Proof.
  exists [CCmp field op (next b)], [v]. repeat split.
  intros extra r. unfold eval_where, next. simpl.
  rewrite arg_middle. apply andb_true_r.
Qed.

Lemma means_push_lower (field : string) (neg : bool) (v : value)
    (b : builder) :
  means b (push (CLower field neg (next b)) [v] b)
        (fun r => sql_cmp (if neg then Ne else Eq) (sql_lower (get field r))
                          (sql_lower v)).
Proof.
  exists [CLower field neg (next b)], [v]. repeat split.
  intros extra r. unfold eval_where, next. simpl.
  rewrite arg_middle. apply andb_true_r.
Qed.

Lemma means_push_in (field : string) (equality : bool) (items : list value)
    (b : builder) :
  means b
    (push (CIn field (negb equality) (seq (next b) (length items))) items b)
    (fun r => if equality then existsb (sql_eq (get field r)) items
              else forallb (sql_cmp Ne (get field r)) items).
Proof.
  exists [CIn field (negb equality) (seq (next b) (length items))], items.
  repeat split. intros extra r. unfold eval_where, next. simpl.
  rewrite andb_true_r.
  destruct equality; simpl.
  - rewrite <- (args_of_seq (b_args b) items extra) at 2.
    now rewrite existsb_map.
  - rewrite <- (args_of_seq (b_args b) items extra) at 2.
    now rewrite forallb_map.
Qed.

Lemma means_operator_cmp (key field : string) (op : cmp) (es : object)
    (b : builder) :
  means b (operator key (CCmp field op) es b)
        (fun r => op_holds key (sql_cmp op) es (get field r)).
Proof.
  unfold operator, op_holds. destruct (truthy (get key es)).
  - apply means_push_cmp.
  - apply means_refl.
Qed.

Lemma means_operator_lower (key field : string) (neg : bool) (es : object)
    (b : builder) :
  means b (operator key (CLower field neg) es b)
        (fun r =>
           op_holds key
             (fun x y => sql_cmp (if neg then Ne else Eq) (sql_lower x)
                                 (sql_lower y))
             es (get field r)).
Proof.
  unfold operator, op_holds. destruct (truthy (get key es)).
  - apply means_push_lower.
  - apply means_refl.
Qed.

Lemma means_finish (field : string) (v : value) (b0 b b7 : builder)
    (m : object -> bool) :
  means b b7 m -> means b (finish field v b0 b7) m.
Proof. unfold finish. destruct (Nat.eqb _ _); auto. Qed.

(** The [$ne] part of an operator object, read through [get]. *)
Lemma field_holds_object (field : string) (entries : object)
    (equality : bool) (r : object) :
  field_holds field (VObj entries) equality r
  = (if truthy (get "$ne" entries)
     then field_holds field (get "$ne" entries) false r else true)
    && op_holds "$gt" (sql_cmp Gt) entries (get field r)
    && op_holds "$gte" (sql_cmp Ge) entries (get field r)
    && op_holds "$lt" (sql_cmp Lt) entries (get field r)
    && op_holds "$lte" (sql_cmp Le) entries (get field r)
    && op_holds "$eqi" (fun a b => sql_cmp Eq (sql_lower a) (sql_lower b))
         entries (get field r)
    && op_holds "$nei" (fun a b => sql_cmp Ne (sql_lower a) (sql_lower b))
         entries (get field r).
Proof.
  simpl. do 6 f_equal.
  induction entries as [|[k x] es IH]; simpl; auto.
  destruct (k =? "$ne"); auto.
Qed.

Lemma means_buildField (v : value) :
  forall field equality b,
    means b (buildField field v equality b)
          (field_holds field v equality).
Proof.
  induction v as [ | | x | n | s | t | bs | items IH | entries IH]
    using value_nested_ind;
    intros field equality b; try apply means_push_cmp.
  - apply means_push_in.
  - rewrite buildField_object. apply means_finish.
    assert (H0 : means b (ne_step field entries b)
                   (fun r => if truthy (get "$ne" entries)
                             then field_holds field (get "$ne" entries) false r
                             else true)).
    { unfold ne_step. destruct (truthy (get "$ne" entries)).
      - apply (get_Forall
                 (fun x => forall f e b0,
                      means b0 (buildField f x e b0) (field_holds f x e)));
          [intros; apply means_push_cmp | assumption].
      - apply means_refl. }
    pose proof (means_trans _ _ _ _ _ H0
                  (means_operator_cmp "$gt" field Gt entries _)) as H1.
    pose proof (means_trans _ _ _ _ _ H1
                  (means_operator_cmp "$gte" field Ge entries _)) as H2.
    pose proof (means_trans _ _ _ _ _ H2
                  (means_operator_cmp "$lt" field Lt entries _)) as H3.
    pose proof (means_trans _ _ _ _ _ H3
                  (means_operator_cmp "$lte" field Le entries _)) as H4.
    pose proof (means_trans _ _ _ _ _ H4
                  (means_operator_lower "$eqi" field false entries _)) as H5.
    pose proof (means_trans _ _ _ _ _ H5
                  (means_operator_lower "$nei" field true entries _)) as H6.
    eapply means_ext; [|exact H6].
    intros r. cbv beta. now rewrite field_holds_object.
Qed.

Lemma means_buildCriteria (criteria : object) :
  forall b equality,
    means b (_buildCriteria criteria b equality)
          (criteria_hold criteria equality).
Proof.
  unfold _buildCriteria, criteria_hold.
  induction criteria as [|[f v] cs IH]; intros b equality; simpl.
  - apply means_refl.
  - eapply means_trans; [apply means_buildField | apply IH].
Qed.

End CompilerMeaning.

(** X1. The clauses and arguments [_buildCriteria] appends to empty output
    arrays select exactly the rows of which every criteria entry holds,
    also when further arguments are appended to the vector afterwards. *)
Theorem buildCriteria_selects_what_criteria_ask (criteria : object)
    (equality : bool) (extra : list value) (r : object) :
  let b := _buildCriteria criteria empty_builder equality in
  eval_where (b_args b ++ extra) (b_where b) r
  = criteria_hold criteria equality r.
Proof.
  cbv zeta.
  destruct (means_buildCriteria criteria empty_builder equality)
    as (w & a & Hw & Ha & Hm).
  simpl in Hw, Ha. rewrite Hw, Ha. apply (Hm extra r).
Qed.

(** ** What [find] selects *)

Section FindMeaning.

Variable svc : service.

Lemma means_concealStatus (c : object) (b : builder) :
  means b (snd (concealStatus svc c b))
    (fun r =>
       if truthy (get (statusField svc) c)
       then sql_cmp Eq (get (statusField svc) r) (get (statusField svc) c)
            && live svc r
       else true).
Proof.
  unfold concealStatus. destruct (truthy (get (statusField svc) c)); simpl.
  - exists [CStatus (statusField svc) (length (b_args b) + 1)
                    (length (b_args b) + 2)],
           [get (statusField svc) c; VStr (_deletedStatus svc)].
    repeat split. intros extra r. unfold eval_where, live. simpl.
    rewrite andb_true_r.
    change (b_args b
            ++ get (statusField svc) c :: VStr (_deletedStatus svc) :: extra)
      with (b_args b
            ++ get (statusField svc) c
               :: ([VStr (_deletedStatus svc)] ++ extra)) at 1.
    rewrite arg_middle.
    replace (b_args b
             ++ get (statusField svc) c :: VStr (_deletedStatus svc) :: extra)
      with ((b_args b ++ [get (statusField svc) c])
            ++ VStr (_deletedStatus svc) :: extra)
      by now rewrite <- app_assoc.
    replace (length (b_args b) + 2)
      with (length (b_args b ++ [get (statusField svc) c]) + 1)
      by (rewrite length_app; simpl; lia).
    now rewrite arg_middle.
  - apply means_refl.
Qed.

Lemma means_find_builder (criteria : option object) (opts : query_options) :
  means empty_builder (find_builder svc criteria opts)
        (find_holds svc criteria opts).
Proof.
  unfold find_builder, find_holds, concealing.
  destruct (_concealDeadResources svc && _);
    [destruct criteria as [c|]|]; try apply means_buildCriteria.
  eapply means_trans; [apply means_concealStatus | apply means_buildCriteria].
Qed.

Lemma find_selects_eq (criteria : option object) (opts : query_options)
    (r : object) :
  selects (f_query (find svc criteria opts)) r = find_holds svc criteria opts r.
Proof.
  unfold selects. rewrite find_query_eq. cbv zeta.
  cbn [q_args q_stmt where_of].
  destruct (means_find_builder criteria opts) as (w & a & Hw & Ha & Hm).
  simpl in Hw, Ha. rewrite Hw, Ha. apply Hm.
Qed.

End FindMeaning.

Lemma criteria_hold_app (c1 c2 : object) (equality : bool) (r : object) :
  criteria_hold (c1 ++ c2) equality r
  = criteria_hold c1 equality r && criteria_hold c2 equality r.
Proof. unfold criteria_hold. apply forallb_app. Qed.

Lemma set_absent (k : string) (v : value) (o : object) :
  ~ In k (keys o) -> set k v o = o ++ [(k, v)].
Proof.
  induction o as [|[k' v'] o IH]; simpl; intros Hout; auto.
  destruct (String.eqb_spec k' k) as [->|Hne].
  - exfalso. apply Hout. now left.
  - f_equal. apply IH. intros Hin. apply Hout. now right.
Qed.

Lemma get_absent (k : string) (o : object) :
  ~ In k (keys o) -> get k o = VUndefined.
Proof.
  induction o as [|[k' v'] o IH]; simpl; intros Hout; auto.
  destruct (String.eqb_spec k' k) as [->|Hne].
  - exfalso. apply Hout. now left.
  - apply IH. intros Hin. apply Hout. now right.
Qed.

Lemma field_holds_ne_string (field d : string) (equality : bool)
    (r : object) :
  d <> "" ->
  field_holds field (VObj [("$ne", VStr d)]) equality r
  = sql_cmp Ne (get field r) (VStr d).
Proof.
  intros Hd. rewrite field_holds_object. unfold op_holds. simpl.
  destruct (String.eqb_spec d ""); [contradiction|]. simpl.
  now rewrite !andb_true_r.
Qed.

Lemma find_selects_without_status (svc : service) (c : object)
    (opts : query_options) (r : object) :
  _deletedStatus svc <> "" ->
  ~ In (statusField svc) (keys c) ->
  selects (f_query (find svc (Some c) opts)) r
  = criteria_hold c true r
    && (if concealing svc opts then live svc r else true).
Proof.
  intros Hd Hout. rewrite find_selects_eq. unfold find_holds.
  destruct (concealing svc opts).
  - rewrite (get_absent _ _ Hout). unfold concealStatus.
    rewrite (get_absent _ _ Hout). cbn [truthy fst andb].
    rewrite (set_absent _ _ _ Hout), criteria_hold_app.
    unfold criteria_hold at 2. cbn [forallb fst snd].
    rewrite field_holds_ne_string by assumption.
    now rewrite andb_true_r.
  - now rewrite andb_true_r.
Qed.

Lemma find_selects_with_status (svc : service) (c : object)
    (opts : query_options) (r : object) :
  truthy (get (statusField svc) c) = true ->
  concealing svc opts = true ->
  selects (f_query (find svc (Some c) opts)) r
  = sql_cmp Eq (get (statusField svc) r) (get (statusField svc) c)
    && live svc r
    && criteria_hold (del (statusField svc) c) true r.
Proof.
  intros Ht Hon. rewrite find_selects_eq. unfold find_holds.
  rewrite Hon, Ht. unfold concealStatus. now rewrite Ht.
Qed.

(** X2. On a constructed service, [find] selects exactly the rows of which
    the criteria hold and, when concealment is on, whose status differs from
    the deleted status: for criteria without a status entry the rest of the
    criteria is untouched, and for a truthy status entry [X] the row's status
    must equal [X] as well. *)
Theorem find_selects_matching_live_rows (o : options) (svc : service)
    (c : object) (opts : query_options) (r : object) :
  construct (Some o) = Ok svc ->
  (~ In (statusField svc) (keys c) ->
   selects (f_query (find svc (Some c) opts)) r
   = criteria_hold c true r
     && (if concealing svc opts then live svc r else true))
  /\ (truthy (get (statusField svc) c) = true ->
      concealing svc opts = true ->
      selects (f_query (find svc (Some c) opts)) r
      = sql_cmp Eq (get (statusField svc) r) (get (statusField svc) c)
        && live svc r
        && criteria_hold (del (statusField svc) c) true r).
Proof.
  intros Hsvc. apply construct_deletedStatus in Hsvc. split.
  - now apply find_selects_without_status.
  - apply find_selects_with_status.
Qed.

Lemma find_selects_matching_live_rows_witness :
  selects (f_query (find crud (Some [("username", VStr "a")]) no_options))
    [("id", VStr "a"); ("username", VStr "a"); ("status", VStr "active")]
  = true
  /\ selects (f_query (find crud (Some [("status", VStr "active")]) no_options))
       [("id", VStr "a"); ("username", VStr "a"); ("status", VStr "dead")]
     = false.
Proof.
  split.
  - refine (eq_trans (proj1
      (find_selects_matching_live_rows null_updatedField_options crud
         [("username", VStr "a")] no_options
         [("id", VStr "a"); ("username", VStr "a"); ("status", VStr "active")]
         eq_refl) _) _).
    + simpl. intros [H|[]]. discriminate H.
    + reflexivity.
  - refine (eq_trans (proj2
      (find_selects_matching_live_rows null_updatedField_options crud
         [("status", VStr "active")] no_options
         [("id", VStr "a"); ("username", VStr "a"); ("status", VStr "dead")]
         eq_refl) _ _) _); reflexivity.
Defined.

(** ** Typed tables

    On a table that conforms, a statement that fits compares a column only
    with a null or a value of the column's type, and leaves a table that
    conforms. *)

Section TypedTables.

Variable cols : catalog.

Lemma typed_comparison (k : string) (a b : value) :
  fits cols k a = true -> fits cols k b = true ->
  is_null a = false -> is_null b = false ->
  comparable a b = true.
Proof.
  unfold fits. destruct (column_type cols k) as [y|]; [|discriminate].
  intros Ha Hb Na Nb. rewrite Na in Ha. rewrite Nb in Hb.
  destruct y, a; try discriminate Ha; destruct b; try discriminate Hb;
    reflexivity.
Qed.

Lemma row_fits_set (r : object) (k : string) (v : value) :
  fits cols k v = true ->
  forallb (fun kv => fits cols (fst kv) (snd kv)) r = true ->
  forallb (fun kv => fits cols (fst kv) (snd kv)) (set k v r) = true.
Proof.
  intros Hv. induction r as [|[k0 v0] r IH]; simpl.
  - now rewrite Hv.
  - intros H. apply andb_true_iff in H. destruct H as [H0 Hr].
    destruct (String.eqb_spec k0 k) as [->|Hne]; simpl.
    + now rewrite Hv, Hr.
    + now rewrite H0, IH.
Qed.

Lemma row_fits_apply_sets (args : list value) (sets : list (string * nat))
    (r : object) :
  forallb (fun s => fits cols (fst s) (arg args (snd s))) sets = true ->
  forallb (fun kv => fits cols (fst kv) (snd kv)) r = true ->
  forallb (fun kv => fits cols (fst kv) (snd kv)) (apply_sets args sets r)
  = true.
Proof.
  unfold apply_sets. revert r.
  induction sets as [|s sets IH]; intros r Hs Hr; simpl; [exact Hr|].
  simpl in Hs. apply andb_true_iff in Hs. destruct Hs as [H0 Hs].
  apply IH; [exact Hs|]. now apply row_fits_set.
Qed.

Lemma row_fits_inserted (args : list value) (cs : list string)
    (ps : list nat) :
  forallb (fun cp => fits cols (fst cp) (arg args (snd cp))) (combine cs ps)
  = true ->
  forallb (fun kv => fits cols (fst kv) (snd kv))
          (combine cs (map (arg args) ps))
  = true.
Proof.
  revert ps. induction cs as [|c cs IH]; intros [|p ps]; simpl; auto.
  intros H. apply andb_true_iff in H. destruct H as [H0 H].
  now rewrite H0, IH.
Qed.

Lemma exec_keeps_conforming (t t' : store) (q : query) (res : result_set) :
  conforms cols t = true -> statement_fits cols q = true ->
  exec t q = Some (t', res) ->
  conforms cols t' = true.
Proof.
  unfold conforms, statement_fits, exec.
  destruct (q_stmt q) as [proj s tb w order offset lim
                         |s tb sets w ret|s tb w ret|s tb cs ps];
    intros Ht Hq Hrun.
  - destruct order; [discriminate|].
    match type of Hrun with
    | option_map _ ?x = _ => destruct x; [|discriminate]
    end.
    injection Hrun as <- _. exact Ht.
  - injection Hrun as <- _.
    rewrite !andb_true_iff in Hq. destruct Hq as [[_ Hsets] _].
    rewrite forallb_forall in Ht |- *. intros r' Hin.
    apply in_map_iff in Hin. destruct Hin as (r & <- & Hin).
    destruct (eval_where _ _ r); [|now apply Ht].
    apply row_fits_apply_sets; [exact Hsets | now apply Ht].
  - injection Hrun as <- _.
    rewrite forallb_forall in Ht |- *. intros r Hin.
    apply filter_In in Hin. now apply Ht.
  - injection Hrun as <- _.
    rewrite andb_true_iff in Hq. destruct Hq as [_ Hcs].
    rewrite forallb_app. apply andb_true_iff. split; [exact Ht|].
    simpl. now rewrite (row_fits_inserted _ _ _ Hcs).
Qed.

Lemma settle_keeps_conforming (post : result_set -> value) (t t' : store)
    (c : call) (v : value) :
  conforms cols t = true -> call_fits cols c = true ->
  settle post t c = (t', Ok v) ->
  conforms cols t' = true.
Proof.
  intros Ht Hc. destruct c as [report error|v0|q]; simpl.
  - discriminate.
  - now intros [= <- _].
  - destruct (exec t q) as [[t1 res]|] eqn:E; [|discriminate].
    intros [= <- _]. exact (exec_keeps_conforming t t1 q res Ht Hc E).
Qed.

End TypedTables.

(** ** Pagination *)

Lemma count_of_nonneg (n : Z) :
  (0 <= n)%Z -> count_of (VNum n) = Some (Z.to_nat n).
Proof.
  intros H. unfold count_of. destruct (Z.ltb_spec n 0); [lia | reflexivity].
Qed.

(** X3. Without [sort], [fields] and [mode], on a table that conforms to
    its columns and for criteria that fit them: when the statement of [find]
    with [skip: s] and [take: n] (both non-negative) has run, the table is as
    it was and the result holds, of the rows its [WHERE] selects taken in
    table order, those after the first [s], at most [n] of them; these are
    the rows [find] resolves with. *)
Theorem find_pages_the_selected_rows (cols : catalog) (svc : service)
    (t t' : store) (criteria : option object) (cl : option nat)
    (cn : option bool) (s n : Z) (res : result_set) :
  (0 <= s)%Z -> (0 <= n)%Z ->
  let opts := mkQueryOptions cl (Some s) (Some n) None None cn None in
  let q := f_query (find svc criteria opts) in
  let page := firstn (Z.to_nat n) (skipn (Z.to_nat s) (matching q t)) in
  conforms cols t = true ->
  statement_fits cols q = true ->
  exec t q = Some (t', res) ->
  t' = t
  /\ res = mkResult page (length page)
  /\ run_find svc t criteria opts = Some page.
Proof.
  intros Hs Hn. cbv zeta. intros _ _ Hrun.
  assert (He :
    exec t (f_query (find svc criteria
                       (mkQueryOptions cl (Some s) (Some n) None None cn None)))
    = Some (t,
            mkResult
              (firstn (Z.to_nat n)
                 (skipn (Z.to_nat s)
                    (matching
                       (f_query
                          (find svc criteria
                             (mkQueryOptions cl (Some s) (Some n) None None
                                cn None))) t)))
              (length
                 (firstn (Z.to_nat n)
                    (skipn (Z.to_nat s)
                       (matching
                          (f_query
                             (find svc criteria
                                (mkQueryOptions cl (Some s) (Some n) None
                                   None cn None))) t)))))).
  { unfold matching, selects. rewrite find_query_eq. cbv zeta.
    unfold skip_args, take_args. cbn [skip take sort fields mode client].
    set (b := find_builder svc criteria _).
    unfold exec. cbn [q_stmt q_args where_of app].
    rewrite arg_middle, (count_of_nonneg s Hs). cbn [option_map].
    assert (Ha :
      arg (b_args b ++ [VNum s; VNum n]) (length (b_args b ++ [VNum s]) + 1)
      = VNum n).
    { change (b_args b ++ [VNum s; VNum n])
        with (b_args b ++ [VNum s] ++ [VNum n]).
      rewrite app_assoc. apply arg_middle. }
    rewrite Ha, (count_of_nonneg n Hn). reflexivity. }
  unfold run_find. rewrite He in *. injection Hrun as <- <-.
  repeat split.
Qed.

Lemma find_pages_the_selected_rows_witness :
  run_find crud two_users (Some [("status", VStr "active")])
    (mkQueryOptions None (Some 1%Z) (Some 1%Z) None None None None)
  = Some [user_b].
Proof.
  refine (eq_trans
    (proj2 (proj2
       (find_pages_the_selected_rows user_columns crud two_users _
          (Some [("status", VStr "active")]) None None 1 1 _ _ _
          eq_refl eq_refl eq_refl))) _).
  - lia.
  - lia.
  - reflexivity.
Defined.

(** ** Every statement numbers its arguments *)

Section Numbering.

Variable svc : service.

Lemma setsOf_placeholders (o : object) :
  map snd (setsOf o) = seq 1 (length (setArgs o)).
Proof.
  unfold setsOf, setArgs, keys. rewrite !length_map. generalize 1.
  induction o as [|[k v] o IH]; intros n; simpl; auto.
  now rewrite IH.
Qed.

Lemma numbered_update (now : Z) (doc : object) (data : option object)
    (opts : query_options) (q : query) :
  snd (update svc now doc data opts) = Issued q -> numbered q.
Proof.
  unfold update, numbered.
  destruct (get (idField svc) (stamp svc now (_applyUpdates svc doc data)));
    intros H; try discriminate; injection H as <-; simpl;
    rewrite setsOf_placeholders, length_app, seq_app; simpl;
    now rewrite Nat.add_1_r.
Qed.

Lemma numbered_from (n : nat) (args0 : list value) (b : builder) :
  length args0 = n ->
  grows (mkBuilder [] args0 []) b ->
  seq 1 n ++ where_placeholders (b_where b) = seq 1 (length (b_args b)).
Proof.
  intros <- (w & a & Hw & Ha & Hp). simpl in *.
  rewrite Hw, Ha, Hp, length_app, seq_app. do 2 f_equal. lia.
Qed.

Lemma numbered_bulkUpdate (now : Z) (criteria : option object)
    (data : object) (opts : option query_options) :
  numbered (k_query (bulkUpdate svc now criteria data opts)).
Proof.
  unfold numbered, bulkUpdate.
  set (args := setArgs (del (idField svc) (stamp svc now data))).
  set (c0 := match criteria with Some c => c | None => [] end).
  assert (Hg : forall on : bool,
    grows (mkBuilder [] args [])
      (_buildCriteria
         (fst (if on then concealStatus svc c0 (mkBuilder [] args [])
               else (c0, mkBuilder [] args [])))
         (snd (if on then concealStatus svc c0 (mkBuilder [] args [])
               else (c0, mkBuilder [] args [])))
         true)).
  { intros [|]; [|apply grows_buildCriteria].
    eapply grows_trans; [apply grows_concealStatus|apply grows_buildCriteria]. }
  match goal with
  | |- context [if ?on then concealStatus _ _ _ else _] =>
      specialize (Hg on); destruct on
  end;
    [destruct (concealStatus svc c0 (mkBuilder [] args [])) as [c1 b1]|];
    cbn [fst snd k_query q_stmt q_args placeholders] in *;
    rewrite setsOf_placeholders;
    exact (numbered_from (length args) args _ eq_refl Hg).
Qed.

Lemma numbered_bulkDeletePermanently (criteria : option object)
    (opts : query_options) :
  numbered (k_query (bulkDeletePermanently svc criteria opts)).
Proof.
  unfold numbered, bulkDeletePermanently.
  set (c0 := match criteria with Some c => c | None => [] end).
  pose proof (grows_concealStatus svc c0 empty_builder) as Hc.
  unfold concealStatus in Hc.
  destruct (_concealDeadResources svc && _);
    [destruct (truthy (get (statusField svc) c0))|];
    cbn [fst snd k_query q_stmt q_args placeholders] in *;
    match goal with
    | |- where_placeholders (b_where (_buildCriteria ?c ?b true)) = _ =>
        assert (Hg : grows empty_builder (_buildCriteria c b true))
          by (first [apply grows_buildCriteria
                    |eapply grows_trans;
                     [exact Hc|apply grows_buildCriteria]]);
        apply (numbered_from 0 [] _ eq_refl Hg)
    end.
Qed.

End Numbering.

(** X4. Whatever statement [create], [retrieve], [update], [delete],
    [deletePermanently], [bulkUpdate], [bulkDelete] or
    [bulkDeletePermanently] hands to the pool, its placeholders read in text
    order are [$1 .. $n] for the [n] values of its argument vector. *)
Theorem every_statement_numbers_its_arguments (svc : service) (now : Z)
    (doc data : object) (patch criteria : option object) (id : value)
    (opts : query_options) (popts : option query_options) :
  (forall q, In q (queries (create svc data opts)) -> numbered q)
  /\ (forall q, In q (queries (retrieve svc id opts)) -> numbered q)
  /\ (forall q, In q (queries (snd (update svc now doc patch opts))) ->
                numbered q)
  /\ (forall q, In q (queries (snd (delete svc now doc opts))) -> numbered q)
  /\ (forall q, In q (queries (deletePermanently svc doc opts)) -> numbered q)
  /\ numbered (k_query (bulkUpdate svc now criteria data popts))
  /\ numbered (k_query (bulkDelete svc now criteria opts))
  /\ numbered (k_query (bulkDeletePermanently svc criteria opts)).
Proof.
  repeat split.
  - intros q [<-|[]]. unfold numbered. simpl. unfold keys.
    now rewrite !length_map.
  - unfold retrieve.
    destruct id; simpl; try contradiction;
      destruct (_concealDeadResources svc); intros q [<-|[]]; reflexivity.
  - intros q Hq. destruct (snd (update svc now doc patch opts)) eqn:E;
      simpl in Hq; try contradiction.
    destruct Hq as [<-|[]]. now apply numbered_update in E.
  - intros q Hq. unfold delete in Hq.
    destruct (snd (update svc now _ None opts)) eqn:E;
      simpl in Hq; try contradiction.
    destruct Hq as [<-|[]]. now apply numbered_update in E.
  - unfold deletePermanently.
    destruct (get (idField svc) doc); simpl; try contradiction;
      intros q [<-|[]]; reflexivity.
  - apply numbered_bulkUpdate.
  - apply numbered_bulkUpdate.
  - apply numbered_bulkDeletePermanently.
Qed.

Lemma every_statement_numbers_its_arguments_witness :
  numbered
    (mkQuery
       (Update "crud_test" "user" [("first_name", 1); ("updated", 2)]
               [CCmp "id" Eq 3] true)
       [VStr "unit"; VDate 99; VStr "b"] None).
Proof.
  apply (proj1 (proj2 (proj2
    (every_statement_numbers_its_arguments crud 99
       [("id", VStr "b"); ("first_name", VStr "unit")] [] None None VNull
       no_options None)))).
  left. reflexivity.
Defined.

(** ** The patch and the id column *)

(** X5. [_applyUpdates] changes the row only at allow-listed keys: a key
    outside the modifiable keys keeps its value whatever the patch holds, a
    key whose patch value is falsy (absent, [null], [0], [''], [false]) keeps
    its value too, and an allow-listed key with a truthy patch value takes
    it. *)
Theorem applyUpdates_respects_allow_list (svc : service) (doc : object)
    (data : option object) (k : string) :
  (~ In k (_modifiableKeys svc) ->
   get k (_applyUpdates svc doc data) = get k doc)
  /\ (forall d, data = Some d -> truthy (get k d) = false ->
                get k (_applyUpdates svc doc data) = get k doc)
  /\ (forall d, data = Some d -> In k (_modifiableKeys svc) ->
                truthy (get k d) = true ->
                get k (_applyUpdates svc doc data) = get k d).
Proof.
  repeat split.
  - intros Hout. destruct data as [d|]; [|reflexivity].
    rewrite applyUpdates_fold. apply fold_applyKey_skips. contradiction.
  - intros d -> Hf. rewrite applyUpdates_fold.
    now apply fold_applyKey_skips.
  - intros d -> Hin Ht. rewrite applyUpdates_fold.
    now apply fold_applyKey_sets.
Qed.

Lemma applyUpdates_respects_allow_list_witness :
  get "email" (_applyUpdates named_crud [("email", VStr "a@a.com")]
                 (Some [("email", VStr "x"); ("first_name", VStr "")]))
  = VStr "a@a.com"
  /\ get "first_name"
       (_applyUpdates named_crud [("first_name", VStr "unit")]
          (Some [("email", VStr "x"); ("first_name", VStr "")]))
     = VStr "unit"
  /\ get "first_name"
       (_applyUpdates named_crud [("first_name", VStr "unit")]
          (Some [("first_name", VStr "unit2")]))
     = VStr "unit2".
Proof.
  split; [|split].
  - apply (proj1 (applyUpdates_respects_allow_list named_crud
                    [("email", VStr "a@a.com")]
                    (Some [("email", VStr "x"); ("first_name", VStr "")])
                    "email")).
    simpl. intros [H|[]]. discriminate H.
  - apply (proj1 (proj2 (applyUpdates_respects_allow_list named_crud
                    [("first_name", VStr "unit")]
                    (Some [("email", VStr "x"); ("first_name", VStr "")])
                    "first_name")) _ eq_refl).
    reflexivity.
  - apply (proj2 (proj2 (applyUpdates_respects_allow_list named_crud
                    [("first_name", VStr "unit")]
                    (Some [("first_name", VStr "unit2")])
                    "first_name")) _ eq_refl).
    + now left.
    + reflexivity.
Defined.

(** ** update against a table *)

Lemma keys_del (k k' : string) (o : object) :
  In k' (keys (del k o)) <-> k' <> k /\ In k' (keys o).
Proof.
  induction o as [|[k0 v0] o IH]; simpl; [tauto|].
  destruct (String.eqb_spec k0 k) as [->|Hne]; simpl; rewrite IH.
  - split; [tauto|]. intros [Hk [Heq|Hin]]; [congruence | tauto].
  - split; [|tauto]. intros [<-|[Hk Hin]]; [split; auto | tauto].
Qed.

Lemma exec_update (t : store) (s tb : string) (sets : list (string * nat))
    (w : list clause) (ret : bool) (args : list value) (cl : option nat) :
  exec t (mkQuery (Update s tb sets w ret) args cl)
  = Some
      (map (fun r => if eval_where args w r then apply_sets args sets r else r)
           t,
       mkResult
         (if ret
          then map (apply_sets args sets) (filter (eval_where args w) t)
          else [])
         (length (map (apply_sets args sets) (filter (eval_where args w) t)))).
Proof. reflexivity. Qed.

Lemma update_keeps_ids (t : store) (id : string)
    (sets : list (string * nat)) (w : list clause) (args : list value) :
  ~ In id (map fst sets) ->
  map (get id)
      (map (fun r => if eval_where args w r then apply_sets args sets r else r)
           t)
  = map (get id) t.
Proof.
  intros Hout. rewrite map_map. apply map_ext. intros r.
  destruct (eval_where args w r); auto. now apply apply_sets_out.
Qed.

Section UpdateAgainstTable.

Variables (svc : service) (now : Z) (doc : object) (data : option object)
          (opts : query_options).

Let doc2 := stamp svc now (_applyUpdates svc doc data).
Let idv := get (idField svc) doc2.
Let setData := del (idField svc) doc2.
Let uargs := setArgs setData ++ [idv].
Let hit (r : object) : bool := sql_eq (get (idField svc) r) idv.
Let upd (r : object) : object := apply_sets uargs (setsOf setData) r.

Hypothesis has_id : get (idField svc) doc2 <> VUndefined.

Lemma update_call :
  snd (update svc now doc data opts)
  = Issued
      (mkQuery
         (Update (schema svc) (table svc) (setsOf setData)
                 [CCmp (idField svc) Eq (length (setArgs setData) + 1)] true)
         uargs (client opts)).
Proof.
  unfold update. fold doc2. unfold uargs, setData, idv.
  destruct (get (idField svc) doc2) eqn:E; [contradiction|reflexivity..].
Qed.

Lemma update_where (r : object) :
  eval_where uargs [CCmp (idField svc) Eq (length (setArgs setData) + 1)] r
  = hit r.
Proof.
  unfold eval_where. simpl forallb. unfold eval_clause.
  unfold uargs at 1. rewrite arg_last. unfold hit. simpl.
  apply andb_true_r.
Qed.

Lemma update_exec (t : store) :
  run_update svc now t doc data opts
  = (map (fun r => if hit r then upd r else r) t,
     Ok (first_row
           (mkResult (map upd (filter hit t))
                     (length (map upd (filter hit t)))))).
Proof.
  unfold run_update. rewrite update_call. unfold settle.
  rewrite exec_update. f_equal.
  - apply map_ext. intros r. now rewrite update_where.
  - do 2 f_equal; rewrite (filter_ext _ _ update_where); reflexivity.
Qed.

Lemma upd_column (r : object) (k : string) :
  k <> idField svc -> In k (keys doc2) -> get k (upd r) = get k doc2.
Proof.
  intros Hk Hin. unfold upd, uargs.
  rewrite <- (get_del_other (idField svc) k doc2) by congruence.
  apply apply_sets_in.
  - apply setsOf_bound.
  - rewrite setsOf_keys. apply keys_del. auto.
Qed.

Lemma upd_other (r : object) (k : string) :
  k = idField svc \/ ~ In k (keys doc2) -> get k (upd r) = get k r.
Proof.
  intros Hk. unfold upd. apply apply_sets_out.
  rewrite setsOf_keys. intros Hin. apply keys_del in Hin. tauto.
Qed.

End UpdateAgainstTable.

(** X6. On a table that conforms to its columns, for a patched and stamped
    row whose values fit them: when [update] has resolved, the table keeps
    its length and order and still conforms; a row whose id differs is left
    as it was; a row
    with that id takes the value of every column of the patched and stamped
    row except the id, and keeps the id and the columns the row does not
    mention.  The promise gives the first rewritten row, or [undefined], the
    table being unchanged, if no row has that id. *)
Theorem update_rewrites_rows_with_that_id (cols : catalog) (svc : service)
    (now : Z) (t t' : store) (doc : object) (data : option object)
    (opts : query_options) (v : value) :
  let doc2 := stamp svc now (_applyUpdates svc doc data) in
  let id := get (idField svc) doc2 in
  conforms cols t = true ->
  call_fits cols (snd (update svc now doc data opts)) = true ->
  run_update svc now t doc data opts = (t', Ok v) ->
  length t' = length t
  /\ conforms cols t' = true
  /\ (forall i r,
        nth_error t i = Some r ->
        exists r',
          nth_error t' i = Some r'
          /\ (sql_eq (get (idField svc) r) id = false -> r' = r)
          /\ (sql_eq (get (idField svc) r) id = true ->
              forall k,
                (k <> idField svc -> In k (keys doc2) ->
                 get k r' = get k doc2)
                /\ (k = idField svc \/ ~ In k (keys doc2) ->
                    get k r' = get k r)))
  /\ (forall i r,
        nth_error t i = Some r ->
        sql_eq (get (idField svc) r) id = true ->
        (forall j r0, j < i -> nth_error t j = Some r0 ->
                      sql_eq (get (idField svc) r0) id = false) ->
        exists r', nth_error t' i = Some r' /\ v = VObj r')
  /\ ((forall r, In r t -> sql_eq (get (idField svc) r) id = false) ->
      t' = t /\ v = VUndefined).
Proof.
  cbv zeta. intros Hconf Hfits Hrun.
  pose proof (settle_keeps_conforming cols first_row t t' _ v Hconf Hfits Hrun)
    as Hconf'.
  assert (Hid : get (idField svc) (stamp svc now (_applyUpdates svc doc data))
                <> VUndefined).
  { intros E. unfold run_update, update in Hrun. rewrite E in Hrun.
    discriminate Hrun. }
  rewrite (update_exec svc now doc data opts Hid t) in Hrun.
  injection Hrun as <- <-.
  split; [apply length_map|]. split; [exact Hconf'|]. split; [|split].
  - intros i r Hi. rewrite nth_error_map, Hi. cbn [option_map].
    eexists. split; [reflexivity|]. split.
    + now intros ->.
    + intros -> k. split.
      * now apply upd_column.
      * now apply upd_other.
  - intros i r Hi Hhit Hfirst. rewrite nth_error_map, Hi. cbn [option_map].
    rewrite Hhit. eexists. split; [reflexivity|].
    unfold first_row. cbn [rows].
    clear Hid Hconf Hconf'. revert i Hi Hfirst.
    induction t as [|r0 t0 IH]; intros i Hi Hfirst.
    + destruct i; discriminate Hi.
    + destruct i as [|i].
      * injection Hi as ->. cbn [filter]. rewrite Hhit. reflexivity.
      * cbn [filter]. rewrite (Hfirst 0 r0 (Nat.lt_0_succ i) eq_refl).
        apply (IH i Hi). intros j r1 Hj Hr1.
        apply (Hfirst (S j) r1); [lia | exact Hr1].
  - intros Hnone. split.
    + rewrite <- (map_id t) at 2. apply map_ext_in. intros r Hin.
      now rewrite (Hnone r Hin).
    + rewrite (filter_none _ t Hnone). reflexivity.
Qed.

Lemma update_rewrites_rows_with_that_id_witness :
  exists r',
    run_update crud 7 two_users
      [("id", VStr "b"); ("first_name", VStr "unit")] None no_options
    = ([user_a; r'], Ok (VObj r'))
    /\ get "first_name" r' = VStr "unit"
    /\ get "updated" r' = VDate 7
    /\ get "id" r' = VStr "b"
    /\ get "username" r' = VStr "b".
Proof.
  assert (Hrun :
    run_update crud 7 two_users
      [("id", VStr "b"); ("first_name", VStr "unit")] None no_options
    = ([user_a;
        [("id", VStr "b"); ("username", VStr "b"); ("email", VNull);
         ("first_name", VStr "unit"); ("last_name", VNull);
         ("status", VStr "active"); ("created", VDate 2);
         ("updated", VDate 7)]],
       Ok (VObj [("id", VStr "b"); ("username", VStr "b"); ("email", VNull);
                 ("first_name", VStr "unit"); ("last_name", VNull);
                 ("status", VStr "active"); ("created", VDate 2);
                 ("updated", VDate 7)])))
    by reflexivity.
  pose proof
    (update_rewrites_rows_with_that_id user_columns crud 7 two_users _
       [("id", VStr "b"); ("first_name", VStr "unit")] None no_options _
       eq_refl eq_refl Hrun) as H.
  cbv zeta in H. destruct H as (_ & _ & Hrow & _).
  destruct (Hrow 1 user_b eq_refl) as (r' & Hnth & _ & Hhit).
  specialize (Hhit eq_refl). injection Hnth as Hr'.
  exists r'. split; [rewrite Hrun, Hr'; reflexivity|].
  split; [apply (proj1 (Hhit "first_name")); [discriminate | simpl; tauto]|].
  split; [apply (proj1 (Hhit "updated")); [discriminate | simpl; tauto]|].
  split; [apply (proj2 (Hhit "id")); left; reflexivity|].
  apply (proj2 (Hhit "username")). right. simpl.
  intros [E|[E|[E|[]]]]; discriminate E.
Defined.

(** X7. No [update], [delete], [bulkUpdate] or [bulkDelete] assigns the id
    column: it is not among the [SET] columns of the statement, and every row
    of the table has the id afterwards that it had before. *)
Theorem updates_never_write_the_id (svc : service) (now : Z) (t : store)
    (doc data : object) (patch criteria : option object)
    (opts : query_options) (popts : option query_options) :
  (forall q, In q (queries (snd (update svc now doc patch opts))) ->
             ~ In (idField svc) (set_columns (q_stmt q)))
  /\ ~ In (idField svc)
        (set_columns (q_stmt (k_query (bulkUpdate svc now criteria data popts))))
  /\ map (get (idField svc)) (fst (run_update svc now t doc patch opts))
     = map (get (idField svc)) t
  /\ map (get (idField svc)) (fst (run_delete svc now t doc opts))
     = map (get (idField svc)) t
  /\ (forall t' res,
         run_bulk t (bulkUpdate svc now criteria data popts) = Some (t', res) ->
         map (get (idField svc)) t' = map (get (idField svc)) t)
  /\ (forall t' res,
         run_bulk t (bulkDelete svc now criteria opts) = Some (t', res) ->
         map (get (idField svc)) t' = map (get (idField svc)) t).
Proof.
  assert (Hupd : forall d p,
    (forall q, In q (queries (snd (update svc now d p opts))) ->
               ~ In (idField svc) (set_columns (q_stmt q)))
    /\ map (get (idField svc))
         (fst (settle first_row t (snd (update svc now d p opts))))
       = map (get (idField svc)) t).
  { intros d p. unfold update.
    destruct (get (idField svc) (stamp svc now (_applyUpdates svc d p)));
      (split; [simpl; try tauto; intros q [<-|[]]; simpl;
               rewrite setsOf_keys; apply del_not_in_keys
              |try reflexivity; cbn [snd]; unfold settle;
               rewrite exec_update; cbn [fst];
               apply update_keeps_ids; rewrite setsOf_keys;
               apply del_not_in_keys]). }
  assert (Hbulk : forall c d p,
    ~ In (idField svc)
        (set_columns (q_stmt (k_query (bulkUpdate svc now c d p))))
    /\ forall t' res,
         run_bulk t (bulkUpdate svc now c d p) = Some (t', res) ->
         map (get (idField svc)) t' = map (get (idField svc)) t).
  { intros c d p. unfold run_bulk, bulkUpdate.
    match goal with
    | |- context [if ?on then concealStatus _ ?c0 ?b0 else _] =>
        destruct on; [destruct (concealStatus svc c0 b0)|]
    end;
      cbn [k_query q_stmt set_columns];
      (split; [rewrite setsOf_keys; apply del_not_in_keys|]);
      intros t' res H; rewrite exec_update in H; injection H as <- _;
      apply update_keeps_ids; rewrite setsOf_keys; apply del_not_in_keys. }
  repeat split.
  - apply Hupd.
  - apply Hbulk.
  - apply Hupd.
  - apply Hupd.
  - apply Hbulk.
  - apply Hbulk.
Qed.

Lemma updates_never_write_the_id_witness :
  ~ In "id"
      (set_columns
         (Update "crud_test" "user" [("first_name", 1); ("updated", 2)]
                 [CCmp "id" Eq 3] true)).
Proof.
  apply (proj1
    (updates_never_write_the_id crud 99 []
       [("id", VStr "b"); ("first_name", VStr "unit")] [] None None
       no_options None)
    (mkQuery
       (Update "crud_test" "user" [("first_name", 1); ("updated", 2)]
               [CCmp "id" Eq 3] true)
       [VStr "unit"; VDate 99; VStr "b"] None)).
  left. reflexivity.
Defined.

(** ** deletePermanently against a table *)

(** X8. On a table that conforms to its columns, for an id that fits the id
    column: when [deletePermanently] has resolved, it has removed exactly the
    rows whose id equals the row's, kept the others in order, and resolved
    with the removed rows; the table still conforms; afterwards [retrieve] of that id, where its
    statement fits the columns too, gives [null], with concealment on or
    off. *)
Theorem deletePermanently_removes_rows_with_that_id (cols : catalog)
    (svc : service) (t t' : store) (doc : object)
    (opts opts' : query_options) (on : bool) (v : value) :
  let id := get (idField svc) doc in
  let hit := fun r => sql_eq (get (idField svc) r) id in
  conforms cols t = true ->
  call_fits cols (deletePermanently svc doc opts) = true ->
  call_fits cols (retrieve (with_conceal on svc) id opts') = true ->
  run_deletePermanently svc t doc opts = (t', Ok v) ->
  t' = filter (fun r => negb (hit r)) t
  /\ v = whole (mkResult (filter hit t) (length (filter hit t)))
  /\ conforms cols t' = true
  /\ run_retrieve (with_conceal on svc) t' id opts' = (t', Ok VNull).
Proof.
  cbv zeta. intros Hconf Hfits _ Hres.
  pose proof (settle_keeps_conforming cols whole t t' _ v Hconf Hfits Hres)
    as Hconf'.
  assert (Hid : get (idField svc) doc <> VUndefined).
  { intros E. unfold run_deletePermanently, deletePermanently in Hres.
    rewrite E in Hres. discriminate Hres. }
  assert (Hw : forall r,
    eval_where [get (idField svc) doc] [CCmp (idField svc) Eq 1] r
    = sql_eq (get (idField svc) r) (get (idField svc) doc)).
  { intros r. unfold eval_where. simpl. apply andb_true_r. }
  assert (Hrun :
    run_deletePermanently svc t doc opts
    = (filter (fun r => negb (sql_eq (get (idField svc) r)
                                     (get (idField svc) doc))) t,
       Ok (whole
             (mkResult
                (filter (fun r => sql_eq (get (idField svc) r)
                                         (get (idField svc) doc)) t)
                (length
                   (filter (fun r => sql_eq (get (idField svc) r)
                                            (get (idField svc) doc)) t)))))).
  { unfold run_deletePermanently, deletePermanently.
    destruct (get (idField svc) doc) eqn:E; [contradiction|..];
      unfold settle, exec; cbn [q_stmt q_args];
      rewrite (filter_ext _ _ Hw);
      rewrite (filter_ext (fun r => negb (eval_where _ _ r))
                 (fun r => negb (sql_eq (get (idField svc) r) _))
                 (fun r => f_equal negb (Hw r)));
      reflexivity. }
  rewrite Hrun in Hres. injection Hres as <- <-.
  split; [reflexivity|]. split; [reflexivity|]. split; [exact Hconf'|].
  clear Hconf'. set (t' := filter _ t).
  assert (Hgone : forall r, In r t' ->
            sql_eq (get (idField svc) r) (get (idField svc) doc) = false).
  { intros r Hin. apply filter_In in Hin. destruct Hin as [_ Hn].
    now apply negb_true_iff in Hn. }
  unfold run_retrieve, retrieve.
  cbn [with_conceal _concealDeadResources idField statusField schema table
       _deletedStatus].
  assert (Hnone : forall w args,
    hd_error w = Some (CCmp (idField svc) Eq 1) ->
    hd_error args = Some (get (idField svc) doc) ->
    filter (eval_where args w) t' = []).
  { intros w args Hwh Ha. apply filter_none. intros r Hin.
    destruct w as [|c w]; [discriminate|]. injection Hwh as ->.
    destruct args as [|a args]; [discriminate|]. injection Ha as ->.
    unfold eval_where. simpl. now rewrite (Hgone r Hin). }
  clear Hrun.
  destruct (get (idField svc) doc) eqn:E; try reflexivity; destruct on;
    unfold settle, exec; cbn [q_stmt q_args app];
    rewrite Hnone by reflexivity; reflexivity.
Qed.

Lemma deletePermanently_removes_rows_with_that_id_witness :
  run_deletePermanently crud two_users [("id", VStr "b")] no_options
  = ([user_a], Ok (whole (mkResult [user_b] 1)))
  /\ run_retrieve crud [user_a] (VStr "b") no_options = ([user_a], Ok VNull).
Proof.
  assert (Hrun :
    run_deletePermanently crud two_users [("id", VStr "b")] no_options
    = ([user_a], Ok (whole (mkResult [user_b] 1))))
    by reflexivity.
  pose proof
    (deletePermanently_removes_rows_with_that_id user_columns crud two_users
       _ [("id", VStr "b")] no_options no_options true _
       eq_refl eq_refl eq_refl Hrun) as H.
  cbv zeta in H. destruct H as (_ & _ & _ & Hret).
  split; [exact Hrun | exact Hret].
Defined.

(** ** create, then retrieve *)

Lemma inserted_row (data : object) :
  combine (keys data)
    (map (arg (map snd data)) (seq 1 (length (keys data))))
  = data.
Proof.
  unfold keys. rewrite length_map.
  pose proof (args_of_seq [] (map snd data) []) as H.
  simpl in H. rewrite app_nil_r, length_map in H. rewrite H. clear H.
  induction data as [|[k v] data IH]; simpl; auto. now rewrite IH.
Qed.

(** The rows [retrieve] looks among: those with the id that, when the
    service conceals, are live. *)
Lemma retrieve_exec (svc : service) (t : store) (id : value)
    (opts : query_options) :
  sql_eq id id = true ->
  let sel := fun r =>
    sql_eq (get (idField svc) r) id
    && (if _concealDeadResources svc then live svc r else true) in
  run_retrieve svc t id opts
  = (t, Ok (first_or_null
              (mkResult (firstn 1 (filter sel t))
                        (length (firstn 1 (filter sel t)))))).
Proof.
  intros Hself. cbv zeta. unfold run_retrieve, retrieve.
  assert (H1 : forall r,
    eval_where [id; VStr (_deletedStatus svc)]
      [CCmp (idField svc) Eq 1; CCmp (statusField svc) Ne 2] r
    = sql_eq (get (idField svc) r) id && live svc r).
  { intros r. unfold eval_where, live. simpl. now rewrite andb_true_r. }
  assert (H2 : forall r,
    eval_where [id] [CCmp (idField svc) Eq 1] r
    = sql_eq (get (idField svc) r) id && true).
  { intros r. reflexivity. }
  destruct id; try discriminate;
    destruct (_concealDeadResources svc);
    unfold settle, exec; cbn [q_stmt q_args app option_map];
    rewrite ?(filter_ext _ _ H1), ?(filter_ext _ _ H2); reflexivity.
Qed.

(** X9. On a table that conforms to its columns and where no row has the new
    row's id, for data that fit the columns: when [create] has resolved, it
    has appended one row, which agrees with the data on every supplied
    column, and resolved with it; the table still conforms.  If the id is a non-null scalar, and the row
    is live or the service does not conceal, [retrieve] of that id then gives
    that row back. *)
Theorem create_then_retrieve (cols : catalog) (svc : service) (t t' : store)
    (data : object) (opts opts' : query_options) (v : value) :
  let id := get (idField svc) data in
  conforms cols t = true ->
  call_fits cols (create svc data opts) = true ->
  (forall r, In r t -> sql_eq (get (idField svc) r) id = false) ->
  run_create svc t data opts = (t', Ok v) ->
  exists row,
    t' = t ++ [row]
    /\ v = VObj row
    /\ (forall k, In k (keys data) -> get k row = get k data)
    /\ conforms cols t' = true
    /\ (sql_eq id id = true ->
        _concealDeadResources svc = false \/ live svc data = true ->
        run_retrieve svc t' id opts' = (t', Ok (VObj row))).
Proof.
  cbv zeta. intros Hconf Hfits Hfresh Hrun. exists data.
  pose proof (settle_keeps_conforming cols first_row t t' _ v Hconf Hfits Hrun)
    as Hconf'.
  assert (Hc : run_create svc t data opts = (t ++ [data], Ok (VObj data))).
  { unfold run_create, create, settle, exec. cbn [q_stmt q_args].
    now rewrite inserted_row. }
  rewrite Hc in Hrun. injection Hrun as <- <-.
  split; [reflexivity|]. split; [reflexivity|]. split; [reflexivity|].
  split; [exact Hconf'|].
  intros Hself Hlive.
  rewrite (retrieve_exec svc _ _ opts' Hself). cbv zeta.
  rewrite filter_app, filter_none.
  - cbn [app filter]. rewrite Hself.
    destruct Hlive as [->|Hlive]; [reflexivity|].
    rewrite Hlive. now destruct (_concealDeadResources svc).
  - intros r Hin. now rewrite (Hfresh r Hin).
Qed.

Lemma create_then_retrieve_witness :
  exists row,
    run_create crud two_users user_n no_options
    = (two_users ++ [row], Ok (VObj row))
    /\ get "username" row = VStr "n"
    /\ run_retrieve crud (two_users ++ [row]) (VStr "n") no_options
       = (two_users ++ [row], Ok (VObj row)).
Proof.
  assert (Hrun :
    run_create crud two_users user_n no_options
    = (two_users ++ [user_n], Ok (VObj user_n)))
    by reflexivity.
  assert (Hfresh : forall r,
    In r two_users -> sql_eq (get (idField crud) r) (VStr "n") = false).
  { intros r [<-|[<-|[]]]; reflexivity. }
  pose proof
    (create_then_retrieve user_columns crud two_users _ user_n no_options
       no_options _ eq_refl eq_refl Hfresh Hrun) as H.
  cbv zeta in H. destruct H as (row & Ht & Hv & Hk & _ & Hr).
  exists row. rewrite Hrun.
  apply app_inv_head in Ht. injection Ht as <-.
  split; [reflexivity|]. split.
  - apply (Hk "username"). simpl. tauto.
  - apply Hr.
    + reflexivity.
    + right. reflexivity.
Defined.

(** X10. [retrieve] with a [null] or [undefined] id resolves [null] and
    issues no query.  With a scalar id that fits the id column of a table
    that conforms to its columns: when [retrieve] has resolved, the table is
    as it was and the promise gives the first row, in table order, whose id
    equals it and which, when the service conceals, is live; [null] if there
    is none. *)
Theorem retrieve_gives_first_row_with_id (cols : catalog) (svc : service)
    (t t' : store) (id : value) (opts : query_options) (v : value) :
  (id = VNull \/ id = VUndefined ->
   retrieve svc id opts = Resolved VNull /\ queries (retrieve svc id opts) = [])
  /\ (sql_eq id id = true ->
      conforms cols t = true ->
      call_fits cols (retrieve svc id opts) = true ->
      run_retrieve svc t id opts = (t', Ok v) ->
      let sel := fun r =>
        sql_eq (get (idField svc) r) id
        && (if _concealDeadResources svc then live svc r else true) in
      t' = t
      /\ v = match filter sel t with
             | r :: _ => VObj r
             | [] => VNull
             end).
Proof.
  split.
  - intros [->| ->]; split; reflexivity.
  - intros Hself _ _ Hrun. cbv zeta.
    rewrite (retrieve_exec svc t id opts Hself) in Hrun. cbv zeta in Hrun.
    injection Hrun as <- <-. split; [reflexivity|].
    unfold first_or_null. cbn [rows].
    now destruct (filter _ t).
Qed.

Lemma retrieve_gives_first_row_with_id_witness :
  queries (retrieve crud VNull no_options) = []
  /\ run_retrieve crud two_users (VStr "b") no_options
     = (two_users, Ok (VObj user_b)).
Proof.
  assert (Hrun :
    run_retrieve crud two_users (VStr "b") no_options
    = (two_users, Ok (VObj user_b)))
    by reflexivity.
  split.
  - exact (proj2 (proj1
      (retrieve_gives_first_row_with_id user_columns crud two_users two_users
         VNull no_options VNull)
      (or_introl eq_refl))).
  - pose proof
      (proj2
         (retrieve_gives_first_row_with_id user_columns crud two_users _
            (VStr "b") no_options _)
         eq_refl eq_refl eq_refl Hrun) as H.
    cbv zeta in H. destruct H as [_ Hv].
    rewrite Hrun. exact (f_equal (fun x => (two_users, Ok x)) Hv).
Defined.

(** ** count *)

Lemma find_builder_conceal_only (svc : service) (criteria : option object)
    (o1 o2 : query_options) :
  conceal o1 = conceal o2 ->
  find_builder svc criteria o1 = find_builder svc criteria o2.
Proof. unfold find_builder. now intros ->. Qed.

(** X11. For one criteria value and [conceal] setting, against one table:
    when [count] and [find] without pagination have both resolved, the number
    [count] gives is the number of rows [find] gives; [skip], [take], [sort]
    and [fields] passed to [count] do not reach its statement. *)
Theorem count_is_the_number_of_rows_found (svc : service) (t : store)
    (criteria : option object) (opts : query_options) :
  (forall found_rows n,
      run_find svc t criteria (count_options opts) = Some found_rows ->
      run_count svc t criteria opts = Some n ->
      n = Z.of_nat (length found_rows))
  /\ f_query (count svc criteria opts)
     = f_query (count svc criteria (count_options opts)).
Proof.
  split; [|reflexivity].
  intros found_rows n. unfold run_find, run_count, count.
  rewrite !find_query_eq. cbv zeta.
  unfold skip_args, take_args, count_options.
  cbn [skip take sort fields mode client conceal].
  rewrite (find_builder_conceal_only svc criteria
             (mkQueryOptions (client opts) None None None None (conceal opts)
                (Some _QUERY_MODE_COUNT))
             (mkQueryOptions (client opts) None None None None (conceal opts)
                None) eq_refl).
  unfold exec. cbn [q_stmt q_args app option_map snd rows length bigint].
  intros Hf Hc. injection Hf as <-. injection Hc as <-.
  reflexivity.
Qed.

Lemma count_is_the_number_of_rows_found_witness :
  run_count crud two_users (Some [("first_name", VStr "y")]) page_two
  = Some 1%Z.
Proof.
  exact (f_equal Some
    (proj1
       (count_is_the_number_of_rows_found crud two_users
          (Some [("first_name", VStr "y")]) page_two)
       [user_b] 1%Z eq_refl eq_refl)).
Defined.

(** ** Bulk statements and dead rows *)

Section BulkMeaning.

Variable svc : service.

Lemma bulkUpdate_selects_eq (now : Z) (criteria : option object)
    (data : object) (opts : query_options) (r : object) :
  selects (k_query (bulkUpdate svc now criteria data (Some opts))) r
  = find_holds svc (Some (match criteria with Some c => c | None => [] end))
      opts r.
Proof.
  unfold selects, bulkUpdate, find_holds, concealing.
  set (args := setArgs (del (idField svc) (stamp svc now data))).
  set (c0 := match criteria with Some c => c | None => [] end).
  destruct (_concealDeadResources svc && _).
  - pose proof (means_concealStatus svc c0 (mkBuilder [] args [])) as H1.
    unfold concealStatus in *.
    destruct (truthy (get (statusField svc) c0)); cbn [fst snd] in *;
      match goal with
      | |- context [_buildCriteria ?c ?b true] =>
          destruct (means_trans _ _ _ _ _ H1 (means_buildCriteria c b true))
            as (w & a & Hw & Ha & Hm)
      end;
      cbn [k_query q_stmt q_args where_of b_where b_args] in *;
      rewrite Hw, Ha; simpl app;
      rewrite <- (app_nil_r a); apply Hm.
  - destruct (means_buildCriteria c0 (mkBuilder [] args []) true)
      as (w & a & Hw & Ha & Hm).
    cbn [k_query q_stmt q_args where_of b_where b_args] in *.
    rewrite Hw, Ha. simpl app. rewrite <- (app_nil_r a). apply Hm.
Qed.

End BulkMeaning.

(** X12. With concealment on, on a constructed service, [bulkUpdate] and
    [bulkDelete] leave every dead row of the table exactly as it was, in its
    place, and [bulkDeletePermanently] removes no dead row. *)
Theorem bulk_statements_spare_dead_rows (o : options) (svc : service)
    (now : Z) (t : store) (criteria : option object) (data : object)
    (opts : query_options) :
  construct (Some o) = Ok svc ->
  _concealDeadResources svc = true ->
  conceal opts <> Some false ->
  (forall t' res i r,
      run_bulk t (bulkUpdate svc now criteria data (Some opts))
      = Some (t', res) ->
      nth_error t i = Some r ->
      get (statusField svc) r = VStr (_deletedStatus svc) ->
      nth_error t' i = Some r)
  /\ (forall t' res i r,
         run_bulk t (bulkDelete svc now criteria opts) = Some (t', res) ->
         nth_error t i = Some r ->
         get (statusField svc) r = VStr (_deletedStatus svc) ->
         nth_error t' i = Some r)
  /\ (forall t' res r,
         run_bulk t (bulkDeletePermanently svc criteria opts)
         = Some (t', res) ->
         In r t ->
         get (statusField svc) r = VStr (_deletedStatus svc) ->
         In r t').
Proof.
  intros Hsvc Hon Ho. apply construct_deletedStatus in Hsvc.
  assert (Hupd : forall d t' res i r,
    run_bulk t (bulkUpdate svc now criteria d (Some opts)) = Some (t', res) ->
    nth_error t i = Some r ->
    get (statusField svc) r = VStr (_deletedStatus svc) ->
    nth_error t' i = Some r).
  { intros d t' res i r Hrun Hi Hdead.
    pose proof (bulkUpdate_selects svc Hsvc now criteria d opts r Hon Ho Hdead)
      as Hsel.
    unfold run_bulk, selects in *.
    destruct (k_query (bulkUpdate svc now criteria d (Some opts)))
      as [st args cl] eqn:Eq.
    assert (Hst : exists s tb sets w ret, st = Update s tb sets w ret).
    { unfold bulkUpdate in Eq.
      match type of Eq with
      | context [if ?on then concealStatus _ ?c0 ?b0 else _] =>
          destruct on; [destruct (concealStatus svc c0 b0)|]
      end; injection Eq as <- _ _; repeat eexists. }
    destruct Hst as (s & tb & sets & w & ret & ->).
    rewrite exec_update in Hrun. injection Hrun as <- _.
    rewrite nth_error_map, Hi. cbn [option_map q_stmt q_args where_of] in *.
    now rewrite Hsel. }
  split; [apply Hupd|]. split; [apply Hupd|].
  intros t' res r Hrun Hin Hdead.
  pose proof (bulkDeletePermanently_selects svc Hsvc criteria opts r Hon Ho
                Hdead) as Hsel.
  unfold run_bulk, selects in *.
  destruct (k_query (bulkDeletePermanently svc criteria opts))
    as [st args cl] eqn:Eq.
  assert (Hst : exists s tb w ret, st = Delete s tb w ret).
  { unfold bulkDeletePermanently in Eq.
    destruct (_concealDeadResources svc && _);
      [destruct (truthy (get (statusField svc) _))|];
      injection Eq as <- _ _; repeat eexists. }
  destruct Hst as (s & tb & w & ret & ->).
  unfold exec in Hrun. cbn [q_stmt q_args where_of] in *.
  injection Hrun as <- _. apply filter_In. split; auto.
  now rewrite Hsel.
Qed.

Lemma bulk_statements_spare_dead_rows_witness :
  In [("id", VStr "a"); ("status", VStr "dead")]
     (match run_bulk dead_and_live
              (bulkDeletePermanently crud (Some []) no_options) with
      | Some (t', _) => t'
      | None => []
      end).
Proof.
  refine (proj2 (proj2
    (bulk_statements_spare_dead_rows null_updatedField_options crud 0
       dead_and_live (Some []) [] no_options eq_refl eq_refl _))
    _ _ _ eq_refl _ _).
  - discriminate.
  - now left.
  - reflexivity.
Defined.

(** ** bulkDelete, then find *)

Lemma find_holds_none (svc : service) (opts : query_options) (r : object) :
  find_holds svc None opts r = find_holds svc (Some []) opts r.
Proof.
  unfold find_holds. destruct (concealing svc opts); reflexivity.
Qed.

Lemma find_holds_conceal_only (svc : service) (criteria : option object)
    (o1 o2 : query_options) (r : object) :
  conceal o1 = conceal o2 ->
  find_holds svc criteria o1 r = find_holds svc criteria o2 r.
Proof. unfold find_holds, concealing. now intros ->. Qed.

Lemma exec_find_plain (svc : service) (t : store) (criteria : option object)
    (opts : query_options) :
  exec t (f_query (find svc criteria (count_options opts)))
  = Some (t,
          mkResult
            (matching (f_query (find svc criteria (count_options opts))) t)
            (length
               (matching (f_query (find svc criteria (count_options opts)))
                  t))).
Proof.
  unfold matching, selects. rewrite find_query_eq. cbv zeta. reflexivity.
Qed.

(** X13. On a constructed service whose status column is neither the id nor
    the updated column, with concealment on: [bulkDelete] marks as deleted
    exactly the rows that [find] selects for the same criteria, reports their
    number as [rowCount], leaves the other rows as they were, and afterwards
    [find] with those criteria returns no row. *)
Theorem bulkDelete_then_find_is_empty (o : options) (svc : service)
    (now : Z) (t t' : store) (res : result_set) (criteria : option object)
    (opts : query_options) :
  construct (Some o) = Ok svc ->
  _concealDeadResources svc = true ->
  conceal opts <> Some false ->
  idField svc <> statusField svc ->
  updatedField svc <> Some (statusField svc) ->
  run_bulk t (bulkDelete svc now criteria opts) = Some (t', res) ->
  let q := f_query (find svc criteria (count_options opts)) in
  rowCount res = length (matching q t)
  /\ length t' = length t
  /\ (forall i r,
        nth_error t i = Some r ->
        exists r',
          nth_error t' i = Some r'
          /\ (selects q r = true ->
              get (statusField svc) r' = VStr (_deletedStatus svc))
          /\ (selects q r = false -> r' = r))
  /\ run_find svc t' criteria (count_options opts) = Some [].
Proof.
  intros Hsvc Hon Ho Hid Hss Hrun. cbv zeta.
  apply construct_deletedStatus in Hsvc.
  assert (Ho' : conceal (count_options opts) <> Some false) by exact Ho.
  assert (Hsame : forall r,
    selects (k_query (bulkDelete svc now criteria opts)) r
    = selects (f_query (find svc criteria (count_options opts))) r).
  { intros r. unfold bulkDelete.
    rewrite bulkUpdate_selects_eq, find_selects_eq.
    rewrite (find_holds_conceal_only svc criteria (count_options opts) opts)
      by reflexivity.
    destruct criteria; [reflexivity|]. now rewrite find_holds_none. }
  set (q := f_query (find svc criteria (count_options opts))) in *.
  unfold run_bulk in Hrun.
  pose proof (numbered_bulkUpdate svc now criteria
                [(statusField svc, VStr (_deletedStatus svc))] (Some opts))
    as _.
  (* the statement of bulkDelete *)
  set (data1 := stamp svc now [(statusField svc, VStr (_deletedStatus svc))]).
  set (setData := del (idField svc) data1).
  assert (Hq : exists w a,
    k_query (bulkDelete svc now criteria opts)
    = mkQuery (Update (schema svc) (table svc) (setsOf setData) w false)
              (setArgs setData ++ a) (client opts)).
  { unfold bulkDelete, bulkUpdate. fold data1. fold setData.
    match goal with
    | |- context [if ?on then concealStatus _ ?c0 ?b0 else _] =>
        pose proof (grows_concealStatus svc c0 b0) as Hg1;
        destruct on; [destruct (concealStatus svc c0 b0) as [c1 b1]|]
    end;
      cbn [fst snd] in *;
      match goal with
      | |- context [_buildCriteria ?c ?b true] =>
          pose proof (grows_buildCriteria c b true) as Hg2
      end.
    - destruct (grows_trans _ _ _ Hg1 Hg2) as (w & a & Hw & Ha & _).
      cbn [b_where b_args] in *. exists (b_where (_buildCriteria c1 b1 true)), a.
      cbn [k_query]. now rewrite Ha.
    - destruct Hg2 as (w & a & Hw & Ha & _).
      cbn [b_where b_args] in *. eexists _, a.
      cbn [k_query]. now rewrite Ha. }
  destruct Hq as (w & a & Hq). rewrite Hq in Hrun.
  rewrite exec_update in Hrun.
  assert (Hsel : forall r,
    eval_where (setArgs setData ++ a) w r = selects q r).
  { intros r. rewrite <- Hsame. unfold selects. now rewrite Hq. }
  assert (Hdead : forall r,
    get (statusField svc)
        (apply_sets (setArgs setData ++ a) (setsOf setData) r)
    = VStr (_deletedStatus svc)).
  { intros r.
    assert (Hs : get (statusField svc) setData = VStr (_deletedStatus svc)).
    { unfold setData. rewrite get_del_other by assumption.
      unfold data1. rewrite get_stamp_other by assumption.
      simpl. now rewrite String.eqb_refl. }
    rewrite <- Hs. apply apply_sets_in.
    - apply setsOf_bound.
    - rewrite setsOf_keys. apply get_in_keys. rewrite Hs. discriminate. }
  injection Hrun as <- <-. cbn [rowCount].
  split; [|split; [|split]].
  - rewrite length_map. unfold matching.
    now rewrite (filter_ext _ _ Hsel).
  - apply length_map.
  - intros i r Hi. rewrite nth_error_map, Hi. cbn [option_map].
    eexists. split; [reflexivity|]. rewrite Hsel. split.
    + intros ->. apply Hdead.
    + now intros ->.
  - unfold run_find. fold q.
    assert (Hempty :
      matching q
        (map (fun r => if eval_where (setArgs setData ++ a) w r
                       then apply_sets (setArgs setData ++ a)
                                       (setsOf setData) r
                       else r) t) = []).
    { apply filter_none. intros r' Hin. apply in_map_iff in Hin.
      destruct Hin as (r & <- & _). rewrite Hsel.
      destruct (selects q r) eqn:E; auto.
      unfold q. apply find_selects; auto. }
    unfold q in *. rewrite exec_find_plain. cbn [option_map snd rows].
    now rewrite Hempty.
Qed.

Lemma bulkDelete_then_find_is_empty_witness :
  run_find crud
    [[("id", VStr "a"); ("status", VStr "dead")];
     [("id", VStr "b"); ("status", VStr "dead"); ("updated", VDate 5)]]
    (Some []) (count_options no_options)
  = Some [].
Proof.
  refine (proj2 (proj2 (proj2
    (bulkDelete_then_find_is_empty null_updatedField_options crud 5
       dead_and_live _ _ (Some []) no_options eq_refl eq_refl _ _ _
       eq_refl)))).
  - discriminate.
  - discriminate.
  - discriminate.
Defined.

(** ** A criteria object used twice *)

(** X14. [find] changes the criteria object it is given, so a second [find]
    with the same object asks something else (concealment on, constructed
    service).  Criteria without a status entry come back with the injected
    [{ $ne: deletedStatus }]; the second call takes that entry for a status
    value, binds the object itself to [status = $1], and removes it again.
    Criteria with a truthy status [X] come back without it; the second call
    no longer asks for [status = X], only for a live row. *)
Theorem find_on_a_reused_criteria_object (o : options) (svc : service)
    (c : object) (o1 o2 : query_options) :
  construct (Some o) = Ok svc ->
  concealing svc o1 = true ->
  concealing svc o2 = true ->
  let r1 := find svc (Some c) o1 in
  let r2 := find svc (f_criteria r1) o2 in
  (~ In (statusField svc) (keys c) ->
   f_criteria r1
   = Some (c ++ [(statusField svc,
                  VObj [("$ne", VStr (_deletedStatus svc))])])
   /\ hd_error (where_of (q_stmt (f_query r2)))
      = Some (CStatus (statusField svc) 1 2)
   /\ firstn 2 (q_args (f_query r2))
      = [VObj [("$ne", VStr (_deletedStatus svc))];
         VStr (_deletedStatus svc)]
   /\ f_criteria r2 = Some c)
  /\ (truthy (get (statusField svc) c) = true ->
      forall r,
        selects (f_query r1) r
        = sql_cmp Eq (get (statusField svc) r) (get (statusField svc) c)
          && live svc r
          && criteria_hold (del (statusField svc) c) true r
        /\ selects (f_query r2) r
           = criteria_hold (del (statusField svc) c) true r && live svc r).
Proof.
  intros Hsvc H1 H2. cbv zeta.
  pose proof (construct_deletedStatus o svc Hsvc) as Hd.
  rewrite find_criteria_eq. fold (concealing svc o1). rewrite H1.
  unfold concealStatus. split.
  - intros Hout. rewrite (get_absent _ _ Hout). cbn [truthy fst].
    rewrite (set_absent _ _ _ Hout).
    assert (Hget :
      get (statusField svc)
          (c ++ [(statusField svc, VObj [("$ne", VStr (_deletedStatus svc))])])
      = VObj [("$ne", VStr (_deletedStatus svc))]).
    { rewrite <- (set_absent _ _ _ Hout). apply get_set_same. }
    assert (Hdel :
      del (statusField svc)
          (c ++ [(statusField svc, VObj [("$ne", VStr (_deletedStatus svc))])])
      = c).
    { clear Hget. induction c as [|[k v] c' IH]; simpl.
      - now rewrite String.eqb_refl.
      - simpl in Hout. destruct (String.eqb_spec k (statusField svc)).
        + exfalso. apply Hout. now left.
        + f_equal. apply IH. intros Hin. apply Hout. now right. }
    split; [reflexivity|].
    rewrite find_query_eq, find_criteria_eq. cbv zeta.
    fold (concealing svc o2). unfold find_builder.
    fold (concealing svc o2). rewrite H2.
    unfold concealStatus. rewrite Hget. cbn [truthy fst snd].
    rewrite Hdel. cbn [q_stmt q_args where_of].
    destruct (grows_buildCriteria c
                (mkBuilder
                   (b_where empty_builder
                    ++ [CStatus (statusField svc)
                          (length (b_args empty_builder) + 1)
                          (length (b_args empty_builder) + 2)])
                   (b_args empty_builder
                    ++ [VObj [("$ne", VStr (_deletedStatus svc))];
                        VStr (_deletedStatus svc)])
                   (b_reports empty_builder)) true)
      as (w & a & Hw & Ha & _).
    rewrite Hw, Ha. repeat split.
  - intros Ht r. rewrite Ht. cbn [fst]. split.
    + now apply find_selects_with_status.
    + rewrite find_selects_without_status;
        [now rewrite H2 | assumption | apply del_not_in_keys].
Qed.

(** ** The pool service: clients and errors *)

Lemma service_query_cases (w : world) (sql : string) (args : list value)
    (opts : pool_options) :
  let tail := fun (rel : bool) (c : nat) =>
    match w_run w c sql args with
    | Ok res =>
        (ClientQuery c sql args :: (if rel then [Release c] else []), Ok res)
    | Throw message =>
        (ClientQuery c sql args
           :: (if reported (p_suppress opts) message
               then [Report execute_failed] else [])
           ++ (if rel then [Release c] else []),
         Throw message)
    end in
  service_query w sql args opts
  = match p_client opts with
    | Some c => tail false c
    | None =>
        match w_connect w with
        | Ok c => (Connect :: fst (tail true c), snd (tail true c))
        | Throw message => ([Connect; Report acquire_failed], Throw message)
        end
    end.
Proof.
  cbv zeta. unfold service_query.
  destruct (p_client opts) as [c|].
  - unfold then_, ret, try_catch, bind, client_query. cbn [fst snd app].
    destruct (w_run w c sql args) as [res|message]; cbn [fst snd app].
    + reflexivity.
    + destruct (reported (p_suppress opts) message); reflexivity.
  - unfold then_, getConnection, try_catch, bind, client_query.
    destruct (w_connect w) as [c|message]; cbn [fst snd app].
    + destruct (w_run w c sql args) as [res|m]; cbn [fst snd app].
      * reflexivity.
      * destruct (reported (p_suppress opts) m); reflexivity.
    + reflexivity.
Qed.

(** X15. [query] releases exactly the client it took from the pool, once
    and as its last act, whether the statement succeeds or fails; a client
    supplied by the caller is never released and the pool is not asked; when
    the pool gives no client nothing is executed or released. *)
Theorem service_query_releases_what_it_acquires (w : world) (sql : string)
    (args : list value) (opts : pool_options) :
  let tr := fst (service_query w sql args opts) in
  (forall c, p_client opts = Some c ->
             releases tr = [] /\ connects tr = 0
             /\ hd_error tr = Some (ClientQuery c sql args))
  /\ (forall c, p_client opts = None -> w_connect w = Ok c ->
                releases tr = [c] /\ connects tr = 1
                /\ exists mid,
                     tr = Connect :: ClientQuery c sql args :: mid ++ [Release c])
  /\ (forall message, p_client opts = None -> w_connect w = Throw message ->
                      tr = [Connect; Report acquire_failed]
                      /\ snd (service_query w sql args opts) = Throw message).
Proof.
  cbv zeta. rewrite service_query_cases. cbv zeta. split; [|split].
  - intros c ->. destruct (w_run w c sql args) as [res|m]; cbn [fst];
      [repeat split|]. now destruct (reported (p_suppress opts) m).
  - intros c -> ->. destruct (w_run w c sql args) as [res|m]; cbn [fst].
    + repeat split. now exists [].
    + destruct (reported (p_suppress opts) m); repeat split;
        [now exists [Report execute_failed] | now exists []].
  - intros message -> ->. split; reflexivity.
Qed.

Lemma service_query_releases_what_it_acquires_witness :
  releases
    (fst (service_query failing_world "SHOW DATATHINGS;" []
            (mkPoolOptions None SuppressNone)))
  = [4]
  /\ releases
       (fst (service_query failing_world "SHOW DATATHINGS;" []
               (mkPoolOptions (Some 9) SuppressNone)))
     = [].
Proof.
  split.
  - exact (proj1 (proj1 (proj2
      (service_query_releases_what_it_acquires failing_world
         "SHOW DATATHINGS;" [] (mkPoolOptions None SuppressNone)))
      4 eq_refl eq_refl)).
  - exact (proj1 (proj1
      (service_query_releases_what_it_acquires failing_world
         "SHOW DATATHINGS;" [] (mkPoolOptions (Some 9) SuppressNone))
      9 eq_refl)).
Defined.

(** X16. Once [query] has a client, its promise settles as the driver's
    [client.query] does: the same result, or the same error, whatever
    [suppress] is.  The failure is reported except when [suppress] is a
    [RegExp] that matches the error message; a success reports nothing. *)
Theorem service_query_settles_as_the_driver (w : world) (sql : string)
    (args : list value) (opts : pool_options) (c : nat) :
  p_client opts = Some c \/ (p_client opts = None /\ w_connect w = Ok c) ->
  snd (service_query w sql args opts) = w_run w c sql args
  /\ reports (fst (service_query w sql args opts))
     = match w_run w c sql args with
       | Ok _ => []
       | Throw message =>
           if reported (p_suppress opts) message then [execute_failed] else []
       end.
Proof.
  rewrite service_query_cases. cbv zeta.
  intros [->|[-> ->]]; destruct (w_run w c sql args) as [res|m];
    cbn [fst snd]; try (split; reflexivity);
    destruct (reported (p_suppress opts) m); split; reflexivity.
Qed.

Lemma service_query_settles_as_the_driver_witness :
  snd (service_query failing_world "SHOW DATATHINGS;" []
         (mkPoolOptions None
            (SuppressRegExp
               (fun m => m =? "unrecognized configuration parameter"))))
  = Throw "unrecognized configuration parameter"
  /\ reports
       (fst (service_query failing_world "SHOW DATATHINGS;" []
               (mkPoolOptions None
                  (SuppressRegExp
                     (fun m => m =? "unrecognized configuration parameter")))))
     = [].
Proof.
  exact (service_query_settles_as_the_driver failing_world
           "SHOW DATATHINGS;" []
           (mkPoolOptions None
              (SuppressRegExp
                 (fun m => m =? "unrecognized configuration parameter")))
           4 (or_intror (conj eq_refl eq_refl))).
Defined.

(** ** init *)

Section Init.

Variables (svc : service) (w : world) (h : hooks) (c : nat).

Hypothesis connected : w_connect w = Ok c.

Lemma init_unfold :
  init svc w h
  = (Connect
       :: fst (init_body svc w h c)
       ++ match snd (init_body svc w h c) with
          | Ok _ => []
          | Throw _ => [Report init_failed; ClientQuery c "ROLLBACK" []]
          end
       ++ [Release c],
     match snd (init_body svc w h c) with
     | Ok u => Ok u
     | Throw e =>
         match w_run w c "ROLLBACK" [] with
         | Ok _ => Throw e
         | Throw e' => Throw e'
         end
     end).
Proof.
  unfold init, getConnection, bind at 1. rewrite connected.
  unfold finally, try_catch.
  destruct (init_body svc w h c) as [tr [u|e]]; cbn [fst snd app].
  - reflexivity.
  - unfold bind, emit, client_query, throw. cbn [fst snd app].
    destruct (w_run w c "ROLLBACK" []); cbn [fst snd app];
      now rewrite <- ?app_assoc.
Qed.

Lemma catalog_query (sql : string) (args : list value) :
  service_query w sql args (mkPoolOptions (Some c) SuppressNone)
  = (ClientQuery c sql args
       :: match w_run w c sql args with
          | Ok _ => []
          | Throw _ => [Report execute_failed]
          end,
     w_run w c sql args).
Proof.
  rewrite service_query_cases. cbv zeta. cbn [p_client p_suppress reported].
  now destruct (w_run w c sql args).
Qed.

(** The body when the driver completes every statement [init] itself
    issues before the commit. *)
Lemma init_body_run :
  completes w c "BEGIN" [] ->
  completes w c schema_sql [VStr (schema svc)] ->
  completes w c table_sql [VStr (schema svc); VStr (table svc)] ->
  init_body svc w h c
  = (ClientQuery c "BEGIN" []
       :: ClientQuery c schema_sql [VStr (schema svc)]
       :: fst (schema_hook svc w h c)
       ++ match snd (schema_hook svc w h c) with
          | Throw _ => []
          | Ok _ =>
              ClientQuery c table_sql [VStr (schema svc); VStr (table svc)]
                :: fst (table_hook svc w h c)
                ++ match snd (table_hook svc w h c) with
                   | Throw _ => []
                   | Ok _ => [ClientQuery c "COMMIT" []]
                   end
          end,
     match snd (schema_hook svc w h c) with
     | Throw e => Throw e
     | Ok _ =>
         match snd (table_hook svc w h c) with
         | Throw e => Throw e
         | Ok _ =>
             match w_run w c "COMMIT" [] with
             | Ok _ => Ok tt
             | Throw e => Throw e
             end
         end
     end).
Proof.
  intros [rb Hb] [rs Hs] [rt Ht].
  unfold init_body, schema_hook, table_hook, schema_exists, table_exists,
    found_in_catalog.
  rewrite !catalog_query. unfold client_query, bind, ret.
  rewrite Hb, Hs, Ht. cbn [fst snd app].
  destruct (if (0 <? rowCount rs)%nat then _updateSchema h c
            else _createSchema h c) as [trs [[]|es]]; cbn [fst snd app];
    [|now rewrite ?app_nil_r].
  destruct (if (0 <? rowCount rt)%nat then _updateTable h c
            else _createTable h c) as [trt [[]|et]]; cbn [fst snd app];
    [|now rewrite ?app_nil_r].
  destruct (w_run w c "COMMIT" []); cbn [fst snd app];
    now rewrite ?app_nil_r.
Qed.

End Init.

(** X17. [init] with no client from the pool does nothing else and fails
    with the pool's error.  With a client [c], whatever the driver answers
    and whatever the hooks do, [init] ends by releasing [c]; and when it fails
    it has, just before, reported the failure and issued [ROLLBACK]. *)
Theorem init_always_releases_its_client (svc : service) (w : world)
    (h : hooks) :
  (forall e, w_connect w = Throw e -> init svc w h = ([Connect], Throw e))
  /\ (forall c, w_connect w = Ok c ->
        (exists tr, fst (init svc w h) = Connect :: tr ++ [Release c])
        /\ (forall e, snd (init svc w h) = Throw e ->
              exists tr,
                fst (init svc w h)
                = Connect
                    :: tr ++ [Report init_failed; ClientQuery c "ROLLBACK" [];
                              Release c])).
Proof.
  split.
  - intros e He. unfold init, getConnection, bind. now rewrite He.
  - intros c Hc. rewrite (init_unfold svc w h c Hc). cbn [fst snd]. split.
    + eexists. rewrite app_assoc. reflexivity.
    + intros e He.
      destruct (snd (init_body svc w h c)) as [u|e0]; [discriminate|].
      exists (fst (init_body svc w h c)). reflexivity.
Qed.

Lemma init_always_releases_its_client_witness :
  exists tr,
    fst (init crud empty_database (base_hooks crud empty_database))
    = Connect
        :: tr ++ [Report init_failed; ClientQuery 1 "ROLLBACK" []; Release 1].
Proof.
  exact (proj2 (proj2
    (init_always_releases_its_client crud empty_database
       (base_hooks crud empty_database)) 1 eq_refl)
    createTable_error eq_refl).
Defined.

(** X18. When the driver completes [BEGIN] and the two catalog queries,
    [init] runs one hook for the schema and one for the table, the update hook
    if the catalog query found a row and the create hook if not, the schema's
    before the table's.  It succeeds exactly when both hooks and [COMMIT]
    succeed, and then its last acts are [COMMIT] and the release, with no
    report and no [ROLLBACK] of its own. *)
Theorem init_runs_one_hook_per_level (svc : service) (w : world) (h : hooks)
    (c : nat) :
  w_connect w = Ok c ->
  completes w c "BEGIN" [] ->
  completes w c schema_sql [VStr (schema svc)] ->
  completes w c table_sql [VStr (schema svc); VStr (table svc)] ->
  (snd (init svc w h) = Ok tt
   <-> snd (schema_hook svc w h c) = Ok tt
       /\ snd (table_hook svc w h c) = Ok tt
       /\ completes w c "COMMIT" [])
  /\ (snd (init svc w h) = Ok tt ->
      fst (init svc w h)
      = [Connect; ClientQuery c "BEGIN" [];
         ClientQuery c schema_sql [VStr (schema svc)]]
        ++ fst (schema_hook svc w h c)
        ++ [ClientQuery c table_sql [VStr (schema svc); VStr (table svc)]]
        ++ fst (table_hook svc w h c)
        ++ [ClientQuery c "COMMIT" []; Release c]).
Proof.
  intros Hc Hb Hs Ht.
  rewrite (init_unfold svc w h c Hc), (init_body_run svc w h c Hb Hs Ht).
  cbn [fst snd]. unfold completes.
  assert (Hfail : forall e,
    match w_run w c "ROLLBACK" [] with
    | Ok _ => Throw e
    | Throw e' => Throw e'
    end <> Ok tt).
  { intros e. destruct (w_run w c "ROLLBACK" []); discriminate. }
  destruct (snd (schema_hook svc w h c)) as [[]|es].
  - destruct (snd (table_hook svc w h c)) as [[]|et].
    + destruct (w_run w c "COMMIT" []) as [rc|ec].
      * split; [split; eauto|]. intros _. cbn [app].
        rewrite <- !app_assoc. cbn [app]. rewrite <- !app_assoc. reflexivity.
      * split; [split|].
        -- intros H. now apply Hfail in H.
        -- intros (_ & _ & rc & H). discriminate.
        -- intros H. now apply Hfail in H.
    + split; [split|].
      * intros H. now apply Hfail in H.
      * intros (_ & H & _). discriminate.
      * intros H. now apply Hfail in H.
  - split; [split|].
    + intros H. now apply Hfail in H.
    + intros (H & _). discriminate.
    + intros H. now apply Hfail in H.
Qed.

Lemma init_runs_one_hook_per_level_witness :
  fst (init crud ready_database (base_hooks crud ready_database))
  = [Connect; ClientQuery 1 "BEGIN" [];
     ClientQuery 1 schema_sql [VStr "crud_test"];
     ClientQuery 1 table_sql [VStr "crud_test"; VStr "user"];
     ClientQuery 1 "COMMIT" []; Release 1].
Proof.
  refine (proj2
    (init_runs_one_hook_per_level crud ready_database
       (base_hooks crud ready_database) 1 eq_refl _ _ _) eq_refl);
    eexists; reflexivity.
Defined.

(** X19. A hook that [init] does not choose is never run: two sets of hooks
    that agree on the hook chosen for the schema and on the hook chosen for
    the table give the same [init].  So on an existing schema and table the
    create hooks play no part, and on a missing schema and table the update
    hooks play none. *)
Theorem init_ignores_the_hooks_not_chosen (svc : service) (w : world)
    (h h' : hooks) (c : nat) :
  w_connect w = Ok c ->
  schema_hook svc w h c = schema_hook svc w h' c ->
  table_hook svc w h c = table_hook svc w h' c ->
  init svc w h = init svc w h'.
Proof.
  intros Hc Hs Ht.
  rewrite (init_unfold svc w h c Hc), (init_unfold svc w h' c Hc).
  assert (Hbody : init_body svc w h c = init_body svc w h' c).
  { unfold init_body. rewrite !catalog_query.
    unfold schema_hook, table_hook, schema_exists, table_exists,
      found_in_catalog in Hs, Ht.
    unfold bind, client_query, ret. cbn [fst snd].
    destruct (w_run w c "BEGIN" []); [|reflexivity].
    destruct (w_run w c schema_sql [VStr (schema svc)]) as [rs|];
      [|reflexivity].
    cbn [fst snd]. rewrite Hs.
    destruct (if (0 <? rowCount rs)%nat then _updateSchema h' c
              else _createSchema h' c) as [trs [[]|]]; [|reflexivity].
    destruct (w_run w c table_sql [VStr (schema svc); VStr (table svc)])
      as [rt|]; [|reflexivity].
    cbn [fst snd]. now rewrite Ht. }
  now rewrite Hbody.
Qed.

Lemma init_ignores_the_hooks_not_chosen_witness :
  init crud ready_database (base_hooks crud ready_database)
  = init crud ready_database
      (mkHooks (fun _ => throw "never run") (fun _ => ret tt)
               (fun _ => throw "never run") (fun _ => ret tt)).
Proof.
  exact (init_ignores_the_hooks_not_chosen crud ready_database
           (base_hooks crud ready_database)
           (mkHooks (fun _ => throw "never run") (fun _ => ret tt)
                    (fun _ => throw "never run") (fun _ => ret tt))
           1 eq_refl eq_refl eq_refl).
Defined.

(** X20. With the base class's [_createTable] and a table missing from the
    catalog, [init] cannot succeed: once [BEGIN], the catalog queries and the
    schema hook have gone through, it reports the [_createTable] error,
    reports the failed initialization, issues [ROLLBACK] and never [COMMIT],
    releases the client, and fails with that error when the [ROLLBACK]
    completes. *)
Theorem init_fails_without_a_createTable (svc : service) (w : world)
    (h : hooks) (c : nat) :
  w_connect w = Ok c ->
  completes w c "BEGIN" [] ->
  completes w c schema_sql [VStr (schema svc)] ->
  completes w c table_sql [VStr (schema svc); VStr (table svc)] ->
  table_exists svc w c = false ->
  _createTable h = _createTable (base_hooks svc w) ->
  snd (schema_hook svc w h c) = Ok tt ->
  fst (init svc w h)
  = [Connect; ClientQuery c "BEGIN" [];
     ClientQuery c schema_sql [VStr (schema svc)]]
    ++ fst (schema_hook svc w h c)
    ++ [ClientQuery c table_sql [VStr (schema svc); VStr (table svc)];
        Report createTable_error; Report init_failed;
        ClientQuery c "ROLLBACK" []; Release c]
  /\ (completes w c "ROLLBACK" [] ->
      snd (init svc w h) = Throw createTable_error)
  /\ snd (init svc w h) <> Ok tt.
Proof.
  intros Hc Hb Hs Ht Hmiss Hbase Hhook.
  rewrite (init_unfold svc w h c Hc), (init_body_run svc w h c Hb Hs Ht).
  cbn [fst snd]. rewrite Hhook. unfold table_hook.
  rewrite Hmiss, Hbase. cbn [fst snd app base_hooks _createTable].
  unfold bind, emit, throw. cbn [fst snd app].
  repeat split.
  - rewrite <- !app_assoc. reflexivity.
  - intros [r ->]. reflexivity.
  - destruct (w_run w c "ROLLBACK" []); discriminate.
Qed.

Lemma init_fails_without_a_createTable_witness :
  init crud empty_database (base_hooks crud empty_database)
  = ([Connect; ClientQuery 1 "BEGIN" [];
      ClientQuery 1 schema_sql [VStr "crud_test"];
      ClientQuery 1 (create_schema_sql crud) [];
      ClientQuery 1 table_sql [VStr "crud_test"; VStr "user"];
      Report createTable_error; Report init_failed;
      ClientQuery 1 "ROLLBACK" []; Release 1],
     Throw createTable_error).
Proof.
  assert (H :
    completes empty_database 1 "BEGIN" []
    /\ completes empty_database 1 schema_sql [VStr (schema crud)]
    /\ completes empty_database 1 table_sql
         [VStr (schema crud); VStr (table crud)]
    /\ completes empty_database 1 "ROLLBACK" []).
  { repeat split; eexists; reflexivity. }
  destruct H as (Hb & Hs & Ht & Hr).
  destruct
    (init_fails_without_a_createTable crud empty_database
       (base_hooks crud empty_database) 1 eq_refl Hb Hs Ht eq_refl eq_refl
       eq_refl)
    as (Htr & Hres & _).
  rewrite (surjective_pairing (init crud empty_database _)).
  now rewrite Htr, (Hres Hr).
Defined.

Lemma find_on_a_reused_criteria_object_witness :
  f_criteria
    (find crud
       (f_criteria (find crud (Some [("username", VStr "a")]) no_options))
       no_options)
  = Some [("username", VStr "a")]
  /\ hd_error
       (where_of
          (q_stmt
             (f_query
                (find crud
                   (f_criteria
                      (find crud (Some [("username", VStr "a")]) no_options))
                   no_options))))
     = Some (CStatus "status" 1 2).
Proof.
  pose proof
    (find_on_a_reused_criteria_object null_updatedField_options crud
       [("username", VStr "a")] no_options no_options eq_refl eq_refl eq_refl)
    as H.
  cbv zeta in H. destruct H as [H _].
  assert (Hout : ~ In (statusField crud) (keys [("username", VStr "a")])).
  { simpl. intros [E|[]]. discriminate E. }
  destruct (H Hout) as (_ & Hhd & _ & Hback).
  split; [exact Hback | exact Hhd].
Defined.

(** ** The bulk statements act on the rows [find] selects *)

Section BulkDeleteMeaning.

Variable svc : service.

Lemma bulkDeletePermanently_selects_eq (criteria : option object)
    (opts : query_options) (r : object) :
  selects (k_query (bulkDeletePermanently svc criteria opts)) r
  = find_holds svc (Some (match criteria with Some c => c | None => [] end))
      opts r.
Proof.
  unfold selects, bulkDeletePermanently, find_holds, concealing.
  set (c0 := match criteria with Some c => c | None => [] end).
  destruct (_concealDeadResources svc && _).
  - pose proof (means_concealStatus svc c0 empty_builder) as H1.
    unfold concealStatus in *.
    destruct (truthy (get (statusField svc) c0)); cbn [fst snd] in *;
      match goal with
      | |- context [_buildCriteria ?c ?b true] =>
          destruct (means_trans _ _ _ _ _ H1 (means_buildCriteria c b true))
            as (w & a & Hw & Ha & Hm)
      end;
      cbn [k_query q_stmt q_args where_of b_where b_args app
           empty_builder length Nat.add] in *;
      rewrite Hw, Ha; rewrite <- (app_nil_r a); apply Hm.
  - destruct (means_buildCriteria c0 empty_builder true)
      as (w & a & Hw & Ha & Hm).
    cbn [k_query q_stmt q_args where_of b_where b_args app empty_builder] in *.
    rewrite Hw, Ha. rewrite <- (app_nil_r a). apply Hm.
Qed.

End BulkDeleteMeaning.

(** X21. [bulkUpdate], [bulkDelete] and [bulkDeletePermanently] select the
    very rows that [find] selects for the same criteria and [conceal]
    setting.  On a table that conforms to its columns, for criteria that fit
    them: when the statement of [bulkDeletePermanently] has run, it has
    removed exactly those rows, kept the others in order, and resolved with
    no rows and their number as [rowCount]; the table still conforms. *)
Theorem bulk_statements_act_on_the_rows_find_selects (cols : catalog)
    (svc : service) (now : Z) (t : store) (criteria : option object)
    (data : object) (opts : query_options) :
  let q := f_query (find svc criteria (count_options opts)) in
  (forall r,
      selects (k_query (bulkUpdate svc now criteria data (Some opts))) r
      = selects q r)
  /\ (forall r,
         selects (k_query (bulkDelete svc now criteria opts)) r = selects q r)
  /\ (forall r,
         selects (k_query (bulkDeletePermanently svc criteria opts)) r
         = selects q r)
  /\ (forall t' res,
         conforms cols t = true ->
         statement_fits cols (k_query (bulkDeletePermanently svc criteria opts))
         = true ->
         run_bulk t (bulkDeletePermanently svc criteria opts)
         = Some (t', res) ->
         t' = filter (fun r => negb (selects q r)) t
         /\ res = mkResult [] (length (matching q t))
         /\ conforms cols t' = true).
Proof.
  cbv zeta.
  assert (Hfind : forall r,
    selects (f_query (find svc criteria (count_options opts))) r
    = find_holds svc
        (Some (match criteria with Some c => c | None => [] end)) opts r).
  { intros r. rewrite find_selects_eq.
    rewrite (find_holds_conceal_only svc criteria (count_options opts) opts)
      by reflexivity.
    destruct criteria; [reflexivity|]. apply find_holds_none. }
  assert (Hdel : forall r,
    selects (k_query (bulkDeletePermanently svc criteria opts)) r
    = selects (f_query (find svc criteria (count_options opts))) r).
  { intros r. now rewrite bulkDeletePermanently_selects_eq, Hfind. }
  split; [|split; [|split]].
  - intros r. now rewrite bulkUpdate_selects_eq, Hfind.
  - intros r. unfold bulkDelete. now rewrite bulkUpdate_selects_eq, Hfind.
  - exact Hdel.
  - intros t' res Hconf Hfits Hrun.
    pose proof (exec_keeps_conforming cols t t' _ res Hconf Hfits Hrun)
      as Hconf'.
    revert Hrun. unfold run_bulk, matching.
    rewrite <- (filter_ext _ _ Hdel).
    rewrite <- (filter_ext _ _ (fun r => f_equal negb (Hdel r))).
    unfold selects.
    destruct (k_query (bulkDeletePermanently svc criteria opts))
      as [st args cl] eqn:Eq.
    assert (Hst : exists w, st = Delete (schema svc) (table svc) w false).
    { unfold bulkDeletePermanently in Eq.
      destruct (_concealDeadResources svc && _);
        [destruct (truthy (get (statusField svc) _))|];
        injection Eq as <- _ _; eexists; reflexivity. }
    destruct Hst as (w & ->). unfold exec. cbn [q_stmt q_args where_of].
    intros Hrun. injection Hrun as <- <-.
    split; [reflexivity|]. split; [reflexivity | exact Hconf'].
Qed.

Lemma bulk_statements_act_on_the_rows_find_selects_witness :
  run_bulk two_users
    (bulkDeletePermanently crud (Some [("first_name", VStr "y")]) no_options)
  = Some ([user_a], mkResult [] 1).
Proof.
  assert (Hrun :
    run_bulk two_users
      (bulkDeletePermanently crud (Some [("first_name", VStr "y")]) no_options)
    = Some ([user_a], mkResult [] 1))
    by reflexivity.
  pose proof
    (proj2 (proj2 (proj2
       (bulk_statements_act_on_the_rows_find_selects user_columns crud 0
          two_users (Some [("first_name", VStr "y")]) [] no_options)))
       _ _ eq_refl eq_refl Hrun) as H.
  cbv zeta in H. destruct H as (Ht & Hres & _).
  exact (eq_trans Hrun (f_equal2 (fun a b => Some (a, b)) Ht Hres)).
Defined.

(** ** The constructor *)

(** X22. The constructor fails exactly when the options, the service, a
    non-empty schema or a non-empty table is missing, and its error names the
    first of these that is missing.  A constructed service has the schema and
    table it was given, non-empty id, status and deleted-status names, a
    non-empty updated field, and a retry count other than zero. *)
Theorem construct_checks_its_options (opts : option options) :
  (opts = None ->
   construct opts = Throw "PostgresCrudService: `options` are required.")
  /\ (forall o,
         opts = Some o ->
         (o_service o = false ->
          construct opts
          = Throw "PostgresCrudService: `service` must be defined on initialization")
         /\ (o_service o = true -> given (o_schema o) = false ->
             construct opts
             = Throw "PostgresCrudService: `schema` must be defined on initialization")
         /\ (o_service o = true -> given (o_schema o) = true ->
             given (o_table o) = false ->
             construct opts
             = Throw "PostgresCrudService: `table` must be defined on initialization"))
  /\ ((exists svc, construct opts = Ok svc)
      <-> exists o, opts = Some o /\ o_service o = true
                    /\ given (o_schema o) = true /\ given (o_table o) = true)
  /\ (forall o svc,
         opts = Some o -> construct opts = Ok svc ->
         o_schema o = Some (schema svc) /\ o_table o = Some (table svc)
         /\ schema svc <> "" /\ table svc <> ""
         /\ idField svc <> "" /\ statusField svc <> ""
         /\ _deletedStatus svc <> ""
         /\ (exists f, updatedField svc = Some f /\ f <> "")
         /\ _createRetryCount svc <> 0%Z).
Proof.
  split; [|split; [|split]].
  - now intros ->.
  - intros o ->. unfold construct. repeat split.
    + now intros ->.
    + now intros -> ->.
    + now intros -> -> ->.
  - split.
    + intros [svc H]. destruct opts as [o|]; [|discriminate].
      exists o. unfold construct in H.
      destruct (o_service o); [|discriminate].
      destruct (given (o_schema o)); [|discriminate].
      destruct (given (o_table o)); [|discriminate].
      auto.
    + intros (o & -> & Hs & Hsc & Ht). unfold construct.
      rewrite Hs, Hsc, Ht. eexists. reflexivity.
  - intros o svc -> H. unfold construct in H.
    destruct (o_service o); [|discriminate].
    destruct (given (o_schema o)) eqn:Hsc; [|discriminate].
    destruct (given (o_table o)) eqn:Ht; [|discriminate].
    cbn [negb] in H. injection H as <-. cbn.
    unfold given in Hsc, Ht.
    destruct (o_schema o) as [sc|]; [|discriminate].
    destruct (o_table o) as [tb|]; [|discriminate].
    unfold or_default at 1 2 3 4.
    destruct (String.eqb_spec sc ""); [discriminate|].
    destruct (String.eqb_spec tb ""); [discriminate|].
    repeat split; auto; try (apply or_default_given; discriminate).
    + eexists. split; [reflexivity|]. apply or_default_given. discriminate.
    + destruct (o_createRetryCount o) as [z|]; [|discriminate].
      destruct (Z.eqb_spec z 0); [discriminate | assumption].
Qed.

Lemma construct_checks_its_options_witness :
  idField crud <> "" /\ _deletedStatus crud <> "".
Proof.
  destruct (proj2 (proj2 (proj2
    (construct_checks_its_options (Some null_updatedField_options))))
    null_updatedField_options crud eq_refl eq_refl)
    as (_ & _ & _ & _ & Hid & _ & Hd & _).
  split; [exact Hid | exact Hd].
Defined.
